(** * SecNet backend: consent ledger, proof service, credential service
      and anomaly monitor

    A shallow embedding of the parts of the SecNet backend that carry
    invariants: the consent-request model and its routes, the hash-based
    proof service, the credential service, the data-access middleware and
    the anomaly scoring of the monitoring co-pilot.

    Conventions.
    - Times are milliseconds since the epoch ([Z]); a JavaScript [Date] is
      its time value.
    - An optional JavaScript value is an [option]; [None] is [undefined].
    - A route is a function from the stores it reads and the request
      inputs to the new stores and an HTTP response.
    - Everything the code obtains from its environment (the clock, random
      bytes, SHA-256, the JWT library, the DID registry, IPFS, the map of
      connected sockets) is an explicit input. *)

From Stdlib Require Import ZArith QArith Lia Ascii String.
From stdpp Require Import base option list strings pretty gmap.

Close Scope Q_scope.
Local Open Scope string_scope.
Local Open Scope Z_scope.

(* ===================================================================== *)
(** * JavaScript helpers *)
(* ===================================================================== *)

Module JS.

(** Truthiness of an optional string: [undefined] and [""] are falsy. *)
Definition truthy (v : option string) : bool :=
  match v with
  | Some s => negb (String.eqb s "")
  | None => false
  end.

(** [v || d] for an optional value. *)
Definition or_default {A} (v : option A) (d : A) : A :=
  match v with Some x => x | None => d end.

Definition lower_ascii (c : ascii) : ascii :=
  let n := Ascii.N_of_ascii c in
  if ((65 <=? n) && (n <=? 90))%N then Ascii.ascii_of_N (n + 32) else c.

(** [String.prototype.toLowerCase] on the ASCII letters. *)
Fixpoint toLowerCase (s : string) : string :=
  match s with
  | EmptyString => EmptyString
  | String c r => String (lower_ascii c) (toLowerCase r)
  end.

Definition is_space (c : ascii) : bool :=
  let n := Ascii.N_of_ascii c in
  ((n =? 32) || ((9 <=? n) && (n <=? 13)))%N.

Fixpoint trimStart (s : string) : string :=
  match s with
  | EmptyString => EmptyString
  | String c r => if is_space c then trimStart r else s
  end.

Fixpoint trimEnd (s : string) : string :=
  match s with
  | EmptyString => EmptyString
  | String c r =>
      match trimEnd r with
      | EmptyString => if is_space c then EmptyString else String c EmptyString
      | r' => String c r'
      end
  end.

(** [String.prototype.trim]. *)
Definition trim (s : string) : string := trimEnd (trimStart s).

End JS.

(* ===================================================================== *)
(** * models/User.js *)
(* ===================================================================== *)

Module User.

(** One entry of [ssiCredentials]. *)
Record Credential := {
  cred_type : string;
  cred_issuer : string;
  credentialHash : string;
  issuedAt : Z;
  cred_expiresAt : option Z;
  isRevoked : bool
}.

Record doc := {
  address : string;
  ensName : option string;
  displayName : option string;
  ssiCredentials : list Credential;
  tokenBalance : Z;
  totalEarned : Z;
  isActive : bool
}.

Definition set_credentials (u : doc) (cs : list Credential) : doc :=
  {| address := address u; ensName := ensName u;
     displayName := displayName u; ssiCredentials := cs;
     tokenBalance := tokenBalance u; totalEarned := totalEarned u;
     isActive := isActive u |}.

Definition mark_revoked (c : Credential) : Credential :=
  {| cred_type := cred_type c; cred_issuer := cred_issuer c;
     credentialHash := credentialHash c; issuedAt := issuedAt c;
     cred_expiresAt := cred_expiresAt c; isRevoked := true |}.

(** [ssiCredentials.find(c => c.credentialHash === h)] followed by the
    in-place update [credential.isRevoked = true]: the first match is
    the one that changes. *)
Fixpoint revoke_first (h : string) (cs : list Credential)
  : option (list Credential) :=
  match cs with
  | [] => None
  | c :: r =>
      if String.eqb (credentialHash c) h then Some (mark_revoked c :: r)
      else match revoke_first h r with
           | Some r' => Some (c :: r')
           | None => None
           end
  end.

(** [methods.addCredential]. *)
Definition addCredential (c : Credential) (u : doc) : doc :=
  set_credentials u (ssiCredentials u ++ [c]).

(** [methods.revokeCredential]; [None] is the thrown
    ['Credential not found']. *)
Definition revokeCredential (h : string) (u : doc) : option doc :=
  match revoke_first h (ssiCredentials u) with
  | Some cs => Some (set_credentials u cs)
  | None => None
  end.

(** The schema setters of [address] ([lowercase: true, trim: true]).
    Mongoose applies them to the values it stores and to the values of a
    query filter. *)
Definition address_setter (a : string) : string :=
  JS.toLowerCase (JS.trim a).

(** [statics.findByAddress]: [findOne({address: address.toLowerCase()})]
    on the collection keyed by the stored address; the filter value is
    cast through the setters before it is compared. *)
Definition findByAddress (users : gmap string doc) (a : string)
  : option doc :=
  users !! address_setter (JS.toLowerCase a).

End User.

(* ===================================================================== *)
(** * models/ConsentRequest.js *)
(* ===================================================================== *)

Module ConsentRequest.

Inductive Status := pending | approved | denied | expired | revoked.

#[global] Instance Status_eq_dec : EqDecision Status.
Proof. solve_decision. Defined.

Definition dataType_enum : list string :=
  ["medical"; "financial"; "identity"; "education"; "location";
   "biometric"; "custom"].

Definition accessLevel_enum : list string := ["read"; "write"; "delete"].

Record Party := {
  address : string;
  ensName : option string;
  displayName : option string
}.

Record Scope := {
  fields : list string;
  timeRange : option (Z * Z);
  accessLevel : string
}.

Record BlockchainData := {
  transactionHash : string;
  blockNumber : Z;
  gasUsed : Z;
  timestamp : Z
}.

Record doc := {
  requester : Party;
  dataOwner : Party;
  dataType : string;
  purpose : string;
  scope : Scope;
  status : Status;
  blockchainData : option BlockchainData;
  expiresAt : option Z;
  respondedAt : option Z;
  responseReason : option string;
  isActive : bool;
  createdAt : Z
}.

Definition set_status (s : Status) (d : doc) : doc :=
  {| requester := requester d; dataOwner := dataOwner d;
     dataType := dataType d; purpose := purpose d; scope := scope d;
     status := s; blockchainData := blockchainData d;
     expiresAt := expiresAt d; respondedAt := respondedAt d;
     responseReason := responseReason d; isActive := isActive d;
     createdAt := createdAt d |}.

Definition set_response (t : Z) (reason : string) (d : doc) : doc :=
  {| requester := requester d; dataOwner := dataOwner d;
     dataType := dataType d; purpose := purpose d; scope := scope d;
     status := status d; blockchainData := blockchainData d;
     expiresAt := expiresAt d; respondedAt := Some t;
     responseReason := Some reason; isActive := isActive d;
     createdAt := createdAt d |}.

Definition set_blockchainData (b : BlockchainData) (d : doc) : doc :=
  {| requester := requester d; dataOwner := dataOwner d;
     dataType := dataType d; purpose := purpose d; scope := scope d;
     status := status d; blockchainData := Some b;
     expiresAt := expiresAt d; respondedAt := respondedAt d;
     responseReason := responseReason d; isActive := isActive d;
     createdAt := createdAt d |}.

(** Virtual [isExpired]: [false] without an expiry, else
    [new Date() > this.expiresAt]. *)
Definition isExpired (now : Z) (d : doc) : bool :=
  match expiresAt d with
  | None => false
  | Some e => e <? now
  end.

(** The [pre('save')] hook. *)
Definition pre_save (now : Z) (d : doc) : doc :=
  if isExpired now d && bool_decide (status d = pending)
  then set_status expired d
  else d.

(** [save()] of a document that is already in the collection under
    [id]: the hook runs, then the document is written. *)
Definition save (now : Z) (id : nat) (d : doc) (coll : gmap nat doc)
  : doc * gmap nat doc :=
  let d' := pre_save now d in (d', <[id := d']> coll).

(** [methods.approve], [methods.deny], [methods.revoke]: unguarded
    assignments followed by [save()]. *)
Definition approve (now : Z) (id : nat) (reason : string) (d : doc)
    (coll : gmap nat doc) : doc * gmap nat doc :=
  save now id (set_response now reason (set_status approved d)) coll.

Definition deny (now : Z) (id : nat) (reason : string) (d : doc)
    (coll : gmap nat doc) : doc * gmap nat doc :=
  save now id (set_response now reason (set_status denied d)) coll.

Definition revoke (now : Z) (id : nat) (reason : string) (d : doc)
    (coll : gmap nat doc) : doc * gmap nat doc :=
  save now id (set_response now reason (set_status revoked d)) coll.

Definition setBlockchainData (now : Z) (id : nat) (b : BlockchainData)
    (d : doc) (coll : gmap nat doc) : doc * gmap nat doc :=
  save now id (set_blockchainData b d) coll.

(** [statics.findExpiredRequests]: the query
    [{status: 'pending', expiresAt: {$lt: new Date()}}]. *)
Definition expired_query (now : Z) (d : doc) : bool :=
  bool_decide (status d = pending) &&
  match expiresAt d with Some e => e <? now | None => false end.

Definition findExpiredRequests (now : Z) (coll : gmap nat doc)
  : list (nat * doc) :=
  filter (fun p => expired_query now p.2 = true) (map_to_list coll).

End ConsentRequest.

(* ===================================================================== *)
(** * socket handlers: the connected users and [emitToUser] *)
(* ===================================================================== *)

Module Emitters.

(** The module's [connectedUsers] map, from the lower-cased address a
    socket authenticated with to the socket's id.  The routes and the
    monitor only read it. *)
Class Connections := {
  connectedUsers : gmap string string
}.

(** What a call of [emitToUser] does: nothing when the recipient has no
    socket; otherwise it evaluates [io], which is a parameter of
    [setupSocketHandlers] and not bound where [emitToUser] is defined, so
    the call throws a [ReferenceError] before anything is sent. *)
Inductive Emit := NoSocket | ReferenceError.

(** [emitToUser(userAddress, event, data)]. *)
Definition emitToUser `{Connections} (userAddress event : string) : Emit :=
  if JS.truthy (connectedUsers !! JS.toLowerCase userAddress)
  then ReferenceError
  else NoSocket.

End Emitters.

(* ===================================================================== *)
(** * routes/consent: create, approve, deny, revoke, read *)
(* ===================================================================== *)

Module ConsentRoutes.
Import ConsentRequest.

(** The two collections the routes touch. *)
Record Store := {
  requests : gmap nat doc;
  users : gmap string User.doc
}.

(** A notification delivered to a socket. *)
Record Event := {
  recipient : string;
  event : string;
  requestId : nat
}.

Inductive Response :=
| Reply (code : Z) (message : string) (request : doc)
| Error (code : Z) (error : string).

Record Outcome := {
  store : Store;
  emitted : list Event;
  response : Response
}.

Definition fail (st : Store) (code : Z) (msg : string) : Outcome :=
  {| store := st; emitted := []; response := Error code msg |}.

Definition succeeded (o : Outcome) : Prop :=
  match response o with
  | Reply _ _ _ => True
  | Error _ _ => False
  end.

#[global] Instance succeeded_dec o : Decision (succeeded o).
Proof. unfold succeeded; destruct (response o); apply _. Defined.

(** ** POST /request *)

(** The value [new Date(expiresAt)] of a truthy [expiresAt]. *)
Inductive JsDate := ValidDate (t : Z) | InvalidDate.

Record ScopeBody := {
  sb_fields : list string;
  sb_timeRange : option (Z * Z);
  sb_accessLevel : option string
}.

(** [req.body]; [None] (and the empty string) is a falsy field. *)
Record CreateBody := {
  dataOwnerAddress : option string;
  b_dataType : option string;
  b_purpose : option string;
  b_scope : option ScopeBody;
  b_expiresAt : option JsDate
}.

(** Schema setters [lowercase: true, trim: true]. *)
Definition address_setter (a : string) : string :=
  JS.toLowerCase (JS.trim a).

(** [scope || {}] with the schema default [accessLevel: 'read']. *)
Definition cast_scope (s : option ScopeBody) : Scope :=
  match s with
  | None => {| fields := []; timeRange := None; accessLevel := "read" |}
  | Some b =>
      {| fields := sb_fields b; timeRange := sb_timeRange b;
         accessLevel := JS.or_default (sb_accessLevel b) "read" |}
  end.

(** [new ConsentRequest({...})]: schema defaults [status: 'pending'],
    [isActive: true]; a date that does not cast leaves the path
    unset. *)
Definition new_doc (now : Z) (requesterAddress : string)
    (requesterU ownerU : User.doc) (owner dataType purpose : string)
    (scope : option ScopeBody) (expires : JsDate) : doc :=
  {| requester := {| address := address_setter requesterAddress;
                     ensName := User.ensName requesterU;
                     displayName := User.displayName requesterU |};
     dataOwner := {| address := address_setter owner;
                     ensName := User.ensName ownerU;
                     displayName := None |};
     dataType := dataType;
     purpose := purpose;
     scope := cast_scope scope;
     status := pending;
     blockchainData := None;
     expiresAt := match expires with
                  | ValidDate t => Some t
                  | InvalidDate => None
                  end;
     respondedAt := None;
     responseReason := None;
     isActive := true;
     createdAt := now |}.

Definition in_enum (s : string) (e : list string) : bool :=
  existsb (String.eqb s) e.

(** Schema validation run by [save()]: required paths, enums and
    [maxlength]. *)
Definition validate (d : doc) : bool :=
  negb (String.eqb (address (requester d)) "") &&
  negb (String.eqb (address (dataOwner d)) "") &&
  in_enum (dataType d) dataType_enum &&
  negb (String.eqb (purpose d) "") &&
  (Z.of_nat (String.length (purpose d)) <=? 500) &&
  in_enum (accessLevel (scope d)) accessLevel_enum &&
  bool_decide (is_Some (expiresAt d)).

(** The guard of the route, positively: all four fields truthy. *)
Definition fields_present (body : CreateBody) : bool :=
  JS.truthy (dataOwnerAddress body) && JS.truthy (b_dataType body) &&
  JS.truthy (b_purpose body) && bool_decide (is_Some (b_expiresAt body)).

Section Routes.
Context `{Emitters.Connections}.

(** The [catch] branch answers 500 also when [emitToUser] throws, which
    is after the document has been saved. *)
Definition create_route (st : Store) (now : Z) (requesterAddress : string)
    (body : CreateBody) : Outcome :=
  match dataOwnerAddress body, b_dataType body, b_purpose body,
        b_expiresAt body with
  | Some owner, Some dataType, Some purpose, Some expires =>
      if negb (JS.truthy (Some owner) && JS.truthy (Some dataType) &&
               JS.truthy (Some purpose))
      then fail st 400 "Missing required fields"
      else
        match User.findByAddress (users st) owner with
        | None => fail st 404 "Data owner not found"
        | Some ownerU =>
            match User.findByAddress (users st) requesterAddress with
            | None => fail st 404 "Requester not found"
            | Some requesterU =>
                let d := new_doc now requesterAddress requesterU ownerU
                                 owner dataType purpose (b_scope body)
                                 expires in
                if validate d then
                  let id := fresh (dom (requests st)) in
                  let '(d', coll) := save now id d (requests st) in
                  let st' := {| requests := coll; users := users st |} in
                  match Emitters.emitToUser owner "consent_request" with
                  | Emitters.ReferenceError =>
                      fail st' 500 "Failed to create consent request"
                  | Emitters.NoSocket =>
                      {| store := st'; emitted := [];
                         response :=
                           Reply 201 "Consent request created successfully"
                                 d' |}
                  end
                else fail st 500 "Failed to create consent request"
            end
        end
  | _, _, _, _ => fail st 400 "Missing required fields"
  end.

(** ** POST /:requestId/approve, /deny, /revoke *)

(** In each of the three routes [emitToUser] is called after the model
    method has saved; when it throws, the [catch] branch answers 500. *)
Definition approve_route (st : Store) (now : Z) (userAddress : string)
    (id : nat) (reason : option string) (bc : BlockchainData) : Outcome :=
  match requests st !! id with
  | None => fail st 404 "Consent request not found"
  | Some d =>
      if negb (String.eqb (address (dataOwner d)) userAddress)
      then fail st 403 "Only the data owner can approve this request"
      else if negb (bool_decide (status d = pending))
      then fail st 400 "Request is not pending approval"
      else
        let '(d1, c1) := approve now id (JS.or_default reason "") d
                                 (requests st) in
        let '(d2, c2) := setBlockchainData now id bc d1 c1 in
        let st' := {| requests := c2; users := users st |} in
        match Emitters.emitToUser (address (requester d2)) "access_granted"
        with
        | Emitters.ReferenceError =>
            fail st' 500 "Failed to approve consent request"
        | Emitters.NoSocket =>
            {| store := st'; emitted := [];
               response :=
                 Reply 200 "Consent request approved successfully" d2 |}
        end
  end.

Definition deny_route (st : Store) (now : Z) (userAddress : string)
    (id : nat) (reason : option string) : Outcome :=
  match requests st !! id with
  | None => fail st 404 "Consent request not found"
  | Some d =>
      if negb (String.eqb (address (dataOwner d)) userAddress)
      then fail st 403 "Only the data owner can deny this request"
      else if negb (bool_decide (status d = pending))
      then fail st 400 "Request is not pending approval"
      else
        let '(d1, c1) := deny now id (JS.or_default reason "") d
                              (requests st) in
        let st' := {| requests := c1; users := users st |} in
        match Emitters.emitToUser (address (requester d1)) "access_denied"
        with
        | Emitters.ReferenceError =>
            fail st' 500 "Failed to deny consent request"
        | Emitters.NoSocket =>
            {| store := st'; emitted := [];
               response :=
                 Reply 200 "Consent request denied successfully" d1 |}
        end
  end.

Definition revoke_route (st : Store) (now : Z) (userAddress : string)
    (id : nat) (reason : option string) : Outcome :=
  match requests st !! id with
  | None => fail st 404 "Consent request not found"
  | Some d =>
      if negb (String.eqb (address (dataOwner d)) userAddress)
      then fail st 403 "Only the data owner can revoke this request"
      else if negb (bool_decide (status d = approved))
      then fail st 400 "Request is not approved"
      else
        let '(d1, c1) := revoke now id (JS.or_default reason "") d
                                (requests st) in
        let st' := {| requests := c1; users := users st |} in
        match Emitters.emitToUser (address (requester d1)) "access_revoked"
        with
        | Emitters.ReferenceError =>
            fail st' 500 "Failed to revoke consent request"
        | Emitters.NoSocket =>
            {| store := st'; emitted := [];
               response :=
                 Reply 200 "Consent request revoked successfully" d1 |}
        end
  end.

End Routes.

(** ** GET /:requestId *)

Definition get_route (st : Store) (userAddress : string) (id : nat)
  : Outcome :=
  match requests st !! id with
  | None => fail st 404 "Consent request not found"
  | Some d =>
      if negb (String.eqb (address (dataOwner d)) userAddress) &&
         negb (String.eqb (address (requester d)) userAddress)
      then fail st 403 "Access denied"
      else {| store := st; emitted := [];
              response := Reply 200 "" d |}
  end.

(** ** The three owner actions, uniformly *)

Inductive Action := Approve | Deny | Revoke.

Definition run `{Emitters.Connections} (a : Action) (st : Store) (now : Z)
    (userAddress : string) (id : nat) (reason : option string)
    (bc : BlockchainData) : Outcome :=
  match a with
  | Approve => approve_route st now userAddress id reason bc
  | Deny => deny_route st now userAddress id reason
  | Revoke => revoke_route st now userAddress id reason
  end.

(** The status an action requires, the status it sets, and the message
    of its 400 answer. *)
Definition source (a : Action) : Status :=
  match a with Approve | Deny => pending | Revoke => approved end.

Definition target (a : Action) : Status :=
  match a with Approve => approved | Deny => denied | Revoke => revoked end.

Definition invalid_state_message (a : Action) : string :=
  match a with
  | Approve | Deny => "Request is not pending approval"
  | Revoke => "Request is not approved"
  end.

(** The lifecycle graph. *)
Inductive edge : Status -> Status -> Prop :=
| edge_approve : edge pending approved
| edge_deny : edge pending denied
| edge_expire : edge pending expired
| edge_revoke : edge approved revoked.

End ConsentRoutes.

(* ===================================================================== *)
(** * socket handlers: the periodic clean-up of expired requests *)
(* ===================================================================== *)

Module Cleanup.
Import ConsentRequest.

(** The body of the [setInterval] callback: every request returned by
    [findExpiredRequests] gets [status = 'expired'] and is saved. *)
Definition sweep (now : Z) (coll : gmap nat doc) : gmap nat doc :=
  foldl (fun c p => (save now p.1 (set_status expired p.2) c).2)
        coll (findExpiredRequests now coll).

End Cleanup.

(* ===================================================================== *)
(** * The ledger as a transition system *)
(* ===================================================================== *)

Module Ledger.
Import ConsentRequest ConsentRoutes.

(** One operation on the consent store: a route call, made while some
    set of users is connected, or one run of the clean-up sweep. *)
Inductive step : Store -> Store -> Prop :=
| step_create (sockets : Emitters.Connections) st now requesterAddress body :
    step st (store (create_route st now requesterAddress body))
| step_action (sockets : Emitters.Connections) a st now userAddress id
              reason bc :
    step st (store (run a st now userAddress id reason bc))
| step_read st userAddress id :
    step st (store (get_route st userAddress id))
| step_sweep st now :
    step st {| requests := Cleanup.sweep now (requests st);
               users := users st |}.

End Ledger.

(* ===================================================================== *)
(** * The Node runtime the services call into *)
(* ===================================================================== *)

(** A value parsed from a JSON request body. *)
#[warnings="-register-all"]
Inductive Json :=
| JNull
| JBool (b : bool)
| JNum (q : Q)
| JStr (s : string)
| JArr (items : list Json)
| JObj (members : list (string * Json)).

(** [crypto.createHash('sha256').update(s).digest('hex')],
    [JSON.stringify] on parsed JSON and [Number.prototype.toString] on an
    integer-valued number, as functions of their argument. *)
Class Runtime := {
  sha256 : string -> string;
  JSON_stringify : Json -> string;
  Number_toString : Z -> string
}.

Module NodeCrypto.

Definition hex_digit (n : N) : ascii :=
  match n with
  | 0 => "0" | 1 => "1" | 2 => "2" | 3 => "3" | 4 => "4" | 5 => "5"
  | 6 => "6" | 7 => "7" | 8 => "8" | 9 => "9" | 10 => "a" | 11 => "b"
  | 12 => "c" | 13 => "d" | 14 => "e" | _ => "f"
  end%N%char.

(** [Buffer.prototype.toString('hex')]: two digits per byte. *)
Fixpoint toString_hex (buf : list Byte.byte) : string :=
  match buf with
  | [] => EmptyString
  | b :: r =>
      let n := Byte.to_N b in
      String (hex_digit (n / 16)) (String (hex_digit (n mod 16))
                                          (toString_hex r))
  end.

(** [crypto.randomBytes(n)]: the first [n] bytes of the entropy
    source. *)
Definition randomBytes (entropy : nat -> Byte.byte) (n : nat)
  : list Byte.byte :=
  map entropy (seq 0 n).

End NodeCrypto.

(* ===================================================================== *)
(** * services/zkp-service.js *)
(* ===================================================================== *)

Module ZKP.
Section Service.
Context `{Runtime}.

(** A general proof (age, location, credential): the hashes of the
    committed inputs, the validity flag computed at generation time,
    the creation time and the nonce. *)
Record Proof := {
  commitments : list string;
  isValid : bool;
  timestamp : Z;
  nonce : string
}.

Definition generateAgeProof (now : Z) (entropy : nat -> Byte.byte)
    (actualAge minimumAge : Z) : Proof :=
  {| commitments := [sha256 (Number_toString actualAge);
                     sha256 (Number_toString minimumAge)];
     isValid := minimumAge <=? actualAge;
     timestamp := now;
     nonce := NodeCrypto.toString_hex (NodeCrypto.randomBytes entropy 16) |}.

Record Verification := {
  v_isValid : bool;
  v_proof : Proof;
  v_verificationData : Json
}.

(** [verifyProof]: [expectedHash] is computed and not used.  On a proof
    record and parsed JSON no step of the [try] block throws, so the
    [catch] branch (which answers [isValid: false]) is never taken. *)
Definition verifyProof (now : Z) (proof : Proof) (verificationData : Json)
  : Verification :=
  let expectedHash := sha256 (JSON_stringify verificationData) in
  let isValid :=
    isValid proof &&
    (now - 24 * 60 * 60 * 1000 <? timestamp proof) &&
    (String.length (nonce proof) =? 32)%nat in
  {| v_isValid := isValid; v_proof := proof;
     v_verificationData := verificationData |}.

(** ** Merkle tree *)

(** One pass of the [for (i = 0; i < leaves.length; i += 2)] loop. *)
Fixpoint pair_level (leaves : list string) : list string :=
  match leaves with
  | [] => []
  | [l] => [sha256 (l ++ l)]
  | l :: r :: rest => sha256 (l ++ r) :: pair_level rest
  end.

(** The inner [buildMerkleTree]. The recursion has no base case for
    the empty array and ends there in a [RangeError] when the call
    stack is used up; [fuel] is the number of frames available and
    [None] that error. *)
Fixpoint buildMerkleTree (fuel : nat) (leaves : list string)
  : option string :=
  match leaves with
  | [root] => Some root
  | _ =>
      match fuel with
      | O => None
      | S fuel' => buildMerkleTree fuel' (pair_level leaves)
      end
  end.

Record MerkleTree := {
  root : string;
  leaves : list string;
  treeHeight : Z
}.

(** [Math.ceil(Math.log2(n))] on an array length [n >= 1]. *)
Definition ceil_log2 (n : nat) : Z := Z.log2_up (Z.of_nat n).

Definition leaf_hash (data : Json) : string :=
  sha256 (JSON_stringify data).

(** [generateMerkleTree]; [None] is the rethrown error. A list of [n]
    leaves needs fewer than [n] frames. *)
Definition generateMerkleTree (dataArray : list Json) : option MerkleTree :=
  let leaves := map leaf_hash dataArray in
  match buildMerkleTree (length leaves) leaves with
  | Some root =>
      Some {| root := root; leaves := leaves;
              treeHeight := ceil_log2 (length leaves) |}
  | None => None
  end.

(** The number of levels [buildMerkleTree] builds above the leaves
    (the recursive calls it makes before it returns). *)
Fixpoint levels (fuel : nat) (leaves : list string) : option nat :=
  match leaves with
  | [root] => Some O
  | _ =>
      match fuel with
      | O => None
      | S fuel' => S <$> levels fuel' (pair_level leaves)
      end
  end.

(** ** Data-access proofs *)

Record AccessProof := {
  accessHash : string;
  ap_userId : string;
  ap_dataType : string;
  ap_accessLevel : string;
  ap_timestamp : Z;
  ap_nonce : string
}.

(** The template string [`${userId}-${dataType}-${accessLevel}`]. *)
Definition access_key (userId dataType accessLevel : string) : string :=
  userId ++ "-" ++ dataType ++ "-" ++ accessLevel.

Definition generateDataAccessProof (now : Z) (entropy : nat -> Byte.byte)
    (userId dataType accessLevel : string) : AccessProof :=
  {| accessHash := sha256 (access_key userId dataType accessLevel);
     ap_userId := sha256 userId;
     ap_dataType := sha256 dataType;
     ap_accessLevel := sha256 accessLevel;
     ap_timestamp := now;
     ap_nonce := NodeCrypto.toString_hex (NodeCrypto.randomBytes entropy 16) |}.

Record AccessVerification := {
  av_isValid : bool;
  av_proof : AccessProof;
  accessGranted : bool
}.

(** [verifyDataAccessProof]; as in [verifyProof] the [catch] branch is
    never taken on a proof record. *)
Definition verifyDataAccessProof (now : Z) (proof : AccessProof)
    (userId dataType accessLevel : string) : AccessVerification :=
  let expectedHash := sha256 (access_key userId dataType accessLevel) in
  let isValid :=
    String.eqb (accessHash proof) expectedHash &&
    (now - 60 * 60 * 1000 <? ap_timestamp proof) &&
    (String.length (ap_nonce proof) =? 32)%nat in
  {| av_isValid := isValid; av_proof := proof; accessGranted := isValid |}.

End Service.
End ZKP.

(* ===================================================================== *)
(** * services/ssi-service.js *)
(* ===================================================================== *)

Module SSI.

(** The presentation carried in a JWT payload. *)
Record Presentation := {
  holder : string;
  verifiableCredential : list string;
  challenge : string
}.

(** A decoded JWT payload. *)
Record Payload := {
  iss : option string;
  sub : option string;
  exp : option Z;
  nbf : option Z;
  nonce : option string;
  vc_id : option string;
  vp : option Presentation
}.

(** What the service reaches outside the process: [jwt.verify(token,
    JWT_SECRET)] at a clock time ([None] when it throws) and the
    [resolveDID] view of the registry contract, returning
    [(owner, timestamp, documentHash)] ([None] when the call rejects). *)
Class Env := {
  jwt_verify : Z -> string -> option Payload;
  registry_resolveDID : string -> option (string * Z * string)
}.

Definition AddressZero : string :=
  "0x0000000000000000000000000000000000000000".

Record DidData := {
  did : string;
  owner : string;
  did_timestamp : Z;
  documentHash : string;
  isActive : bool
}.

Record CredentialVerification := {
  cv_isValid : bool;
  cv_error : option string
}.

Record PresentationVerification := {
  pv_isValid : bool;
  pv_error : option string;
  pv_credentials : list CredentialVerification
}.

(** The record [revokeCredential] returns; nothing is stored. *)
Record Revocation := {
  rev_credentialId : string;
  rev_issuer : string;
  rev_reason : string;
  rev_timestamp : Z
}.

Section Service.
Context `{Env}.

(** [resolveDID]: [null] for the zero owner and for a failing call. *)
Definition resolveDID (d : option string) : option DidData :=
  match d with
  | None => None
  | Some d =>
      match registry_resolveDID d with
      | None => None
      | Some (o, t, h) =>
          if String.eqb o AddressZero then None
          else Some {| did := d; owner := o; did_timestamp := t;
                       documentHash := h; isActive := true |}
      end
  end.

(** [decoded.exp && decoded.exp < Math.floor(Date.now() / 1000)]. *)
Definition exp_passed (now : Z) (e : option Z) : bool :=
  match e with
  | None => false
  | Some e => negb (e =? 0) && (e <? now / 1000)
  end.

(** [!didData || !didData.isActive]. *)
Definition did_rejected (d : option DidData) : bool :=
  match d with
  | None => true
  | Some d => negb (isActive d)
  end.

Definition invalid (msg : string) : CredentialVerification :=
  {| cv_isValid := false; cv_error := Some msg |}.

Definition verifyCredential (now : Z) (credentialJWT : string)
  : CredentialVerification :=
  match jwt_verify now credentialJWT with
  | None => invalid "jwt.verify failed"
  | Some decoded =>
      if exp_passed now (exp decoded) then invalid "Credential expired"
      else if did_rejected (resolveDID (iss decoded))
      then invalid "Invalid issuer DID"
      else if did_rejected (resolveDID (sub decoded))
      then invalid "Invalid subject DID"
      else {| cv_isValid := true; cv_error := None |}
  end.

Definition rejected (msg : string) : PresentationVerification :=
  {| pv_isValid := false; pv_error := Some msg; pv_credentials := [] |}.

Definition verifyPresentation (now : Z) (presentationJWT : string)
    (challenge : string) : PresentationVerification :=
  match jwt_verify now presentationJWT with
  | None => rejected "jwt.verify failed"
  | Some decoded =>
      if exp_passed now (exp decoded) then rejected "Presentation expired"
      else if negb (bool_decide (nonce decoded = Some challenge))
      then rejected "Invalid challenge"
      else if did_rejected (resolveDID (iss decoded))
      then rejected "Invalid holder DID"
      else
        match vp decoded with
        | None => rejected "Cannot read properties of undefined"
        | Some p =>
            let credentialVerifications :=
              map (verifyCredential now) (verifiableCredential p) in
            {| pv_isValid := forallb cv_isValid credentialVerifications;
               pv_error := None;
               pv_credentials := credentialVerifications |}
        end
  end.

(** [revokeCredential]: builds the revocation record and returns it. *)
Definition revokeCredential (now : Z) (credentialId issuerDID : string)
    (reason : option string) : Revocation :=
  {| rev_credentialId := credentialId;
     rev_issuer := issuerDID;
     rev_reason := if JS.truthy reason
                   then JS.or_default reason ""
                   else "User requested revocation";
     rev_timestamp := now |}.

End Service.
End SSI.

(* ===================================================================== *)
(** * routes/users: DELETE /credentials/:credentialHash *)
(* ===================================================================== *)

Module UserRoutes.

Inductive Response :=
| Revoked (credentials : list User.Credential)
| Error (code : Z) (error : string).

Definition revoke_credential_route (users : gmap string User.doc)
    (address : option string) (credentialHash : string)
  : gmap string User.doc * Response :=
  if negb (JS.truthy address) then (users, Error 400 "Address is required")
  else
    let a := JS.or_default address "" in
    match User.findByAddress users a with
    | None => (users, Error 404 "User not found")
    | Some user =>
        match User.revokeCredential credentialHash user with
        | None => (users, Error 500 "Failed to revoke credential")
        | Some user' =>
            (<[User.address_setter (JS.toLowerCase a) := user']> users,
             Revoked (User.ssiCredentials user'))
        end
    end.

End UserRoutes.

(* ===================================================================== *)
(** * middleware/security.js *)
(* ===================================================================== *)

Module SecurityMiddleware.

(** Either the response the middleware sends, or the value it attaches
    to the request before calling [next()]. *)
Inductive Result (A : Type) :=
| Respond (code : Z) (error : string)
| Next (attached : A).
Arguments Respond {A} code error.
Arguments Next {A} attached.

Section Middleware.
Context `{Runtime} `{SSI.Env}.

Record DataAccess := {
  da_dataCID : string;
  da_metadataCID : option string;
  da_dataType : string;
  da_userAddress : string;
  da_accessGranted : bool;
  da_proof : ZKP.AccessProof
}.

Record DataAccessBody := {
  dataCID : option string;
  metadataCID : option string;
  userAddress : option string;
  dataType : option string
}.

(** [verifyDataAccess]. [dataExists] is [ipfsService.dataExists];
    [t_generate] and [t_verify] are the two readings of [Date.now()],
    the first inside [generateDataAccessProof], the second inside
    [verifyDataAccessProof]. *)
Definition verifyDataAccess (dataExists : string -> bool)
    (t_generate t_verify : Z) (entropy : nat -> Byte.byte)
    (body : DataAccessBody) : Result DataAccess :=
  match dataCID body, userAddress body, dataType body with
  | Some cid, Some user, Some type =>
      if negb (JS.truthy (Some cid) && JS.truthy (Some user) &&
               JS.truthy (Some type))
      then Respond 400 "Data CID, user address, and data type required"
      else if negb (dataExists cid)
      then Respond 404 "Data not found on IPFS"
      else
        let accessProof :=
          ZKP.generateDataAccessProof t_generate entropy user type "read" in
        let accessVerification :=
          ZKP.verifyDataAccessProof t_verify accessProof user type "read" in
        if negb (ZKP.accessGranted accessVerification)
        then Respond 403 "Access denied to this data"
        else Next {| da_dataCID := cid;
                     da_metadataCID := metadataCID body;
                     da_dataType := type;
                     da_userAddress := user;
                     da_accessGranted := true;
                     da_proof := accessProof |}
  | _, _, _ => Respond 400 "Data CID, user address, and data type required"
  end.

Record SSIBody := {
  presentationJWT : option string;
  ssi_challenge : option string
}.

(** [verifySSICredentials]. *)
Definition verifySSICredentials (now : Z) (body : SSIBody)
  : Result SSI.PresentationVerification :=
  match presentationJWT body, ssi_challenge body with
  | Some jwt, Some challenge =>
      if negb (JS.truthy (Some jwt) && JS.truthy (Some challenge))
      then Respond 400 "Presentation JWT and challenge required"
      else
        let verificationResult := SSI.verifyPresentation now jwt challenge in
        if negb (SSI.pv_isValid verificationResult)
        then Respond 403 "SSI verification failed"
        else Next verificationResult
  | _, _ => Respond 400 "Presentation JWT and challenge required"
  end.

End Middleware.
End SecurityMiddleware.

(* ===================================================================== *)
(** * models/AIAnalytics.js and services/aiCoPilot.js *)
(* ===================================================================== *)

Module AIAnalytics.

Inductive Severity := info | warning | error | critical.
Inductive RiskLevel := low | medium | high | risk_critical.

#[global] Instance Severity_eq_dec : EqDecision Severity.
Proof. solve_decision. Defined.
#[global] Instance RiskLevel_eq_dec : EqDecision RiskLevel.
Proof. solve_decision. Defined.

Record Alert := {
  alert_type : string;
  severity : Severity;
  message : string
}.

(** [frequency] is [requests.length]; [dataVolume] is a finite
    double, hence a rational. *)
Record AccessPattern := {
  frequency : Z;
  timeOfDay : list Z;
  dayOfWeek : list Z;
  dataVolume : Q;
  accessDuration : Q
}.

Record doc := {
  userId : string;
  accessPattern : AccessPattern;
  anomalyScore : Z;
  riskLevel : RiskLevel;
  alerts : list Alert
}.

(** [methods.updateAnomalyScore]. *)
Definition risk_of (score : Z) : RiskLevel :=
  if 90 <=? score then risk_critical
  else if 75 <=? score then high
  else if 50 <=? score then medium
  else low.

Definition updateAnomalyScore (score : Z) (d : doc) : doc :=
  {| userId := userId d; accessPattern := accessPattern d;
     anomalyScore := score; riskLevel := risk_of score;
     alerts := alerts d |}.

(** [methods.addAlert]. *)
Definition addAlert (a : Alert) (d : doc) : doc :=
  {| userId := userId d; accessPattern := accessPattern d;
     anomalyScore := anomalyScore d; riskLevel := riskLevel d;
     alerts := alerts d ++ [a] |}.

End AIAnalytics.

Module AICoPilot.
Import AIAnalytics.

(** The [switch (anomaly.severity)] of [calculateAnomalyScore]. *)
Definition severity_weight (s : Severity) : Z :=
  match s with
  | critical => 30
  | error => 20
  | warning => 10
  | info => 5
  end.

(** The [forEach] accumulation into [score], starting from [acc]. *)
Definition add_weights (acc : Z) (anomalies : list Alert) : Z :=
  foldl (fun score a => score + severity_weight (severity a)) acc anomalies.

(** [x > y] on a rational and an integer constant. *)
Definition Qgtb (x y : Q) : bool := negb (Qle_bool x y).

Definition calculateAnomalyScore (anomalies : list Alert)
    (userAnalytics : doc) : Z :=
  let score := add_weights 0 anomalies in
  let score :=
    if 10 <? frequency (accessPattern userAnalytics)
    then score + 15 else score in
  let score :=
    if Qgtb (dataVolume (accessPattern userAnalytics)) (2000 # 1)
    then score + 20 else score in
  Z.min score 100.

(** ** Notions used to state the properties of the score *)

(** The sum of the severity weights of a list of alerts. *)
Definition weight_sum (anomalies : list Alert) : Z :=
  foldr (fun a s => severity_weight (severity a) + s) 0 anomalies.

(** The bonus for a busy access pattern. *)
Definition pattern_bonus (p : AccessPattern) : Z :=
  (if 10 <? frequency p then 15 else 0) +
  (if Qgtb (dataVolume p) (2000 # 1) then 20 else 0).

(** Severities in the order of the schema's enumeration:
    info, warning, error, critical. *)
Definition severity_rank (s : Severity) : nat :=
  match s with
  | info => 0
  | warning => 1
  | error => 2
  | critical => 3
  end.

Definition severity_le (s1 s2 : Severity) : Prop :=
  (severity_rank s1 <= severity_rank s2)%nat.

(** [alerts_le l1 l2]: [l2] is [l1] with alerts added and severities
    raised. *)
Inductive alerts_le : list Alert -> list Alert -> Prop :=
| alerts_le_nil : alerts_le [] []
| alerts_le_add a l1 l2 : alerts_le l1 l2 -> alerts_le l1 (a :: l2)
| alerts_le_raise a1 a2 l1 l2 :
    severity_le (severity a1) (severity a2) ->
    alerts_le l1 l2 -> alerts_le (a1 :: l1) (a2 :: l2).

End AICoPilot.

(* ===================================================================== *)
(** * The server: stores and services behind the routes *)
(* ===================================================================== *)

Module Server.

(** Everything a route handler can reach: the user collection and the
    services the credential checks call. *)
Record World := {
  users : gmap string User.doc;
  ssi : SSI.Env
}.

(** DELETE /credentials/:credentialHash. *)
Definition delete_credential (w : World) (address : option string)
    (credentialHash : string) : World * UserRoutes.Response :=
  let '(users', r) :=
    UserRoutes.revoke_credential_route (users w) address credentialHash in
  ({| users := users'; ssi := ssi w |}, r).

(** POST /ssi/verify-presentation, guarded by [verifySSICredentials]. *)
Definition post_verify_presentation (w : World) (now : Z)
    (body : SecurityMiddleware.SSIBody)
  : SecurityMiddleware.Result SSI.PresentationVerification :=
  @SecurityMiddleware.verifySSICredentials (ssi w) now body.

End Server.

(* ===================================================================== *)
(** * Concrete data used by the examples *)
(* ===================================================================== *)

Module Fixtures.
Import ConsentRequest ConsentRoutes.

Definition alice : User.doc :=
  {| User.address := "0xa11ce"; User.ensName := Some "alice.eth";
     User.displayName := Some "Alice"; User.ssiCredentials := [];
     User.tokenBalance := 0; User.totalEarned := 0; User.isActive := true |}.

Definition bob : User.doc :=
  {| User.address := "0xb0b"; User.ensName := None;
     User.displayName := None; User.ssiCredentials := [];
     User.tokenBalance := 0; User.totalEarned := 0; User.isActive := true |}.

Definition two_users : gmap string User.doc :=
  <["0xa11ce" := alice]> (<["0xb0b" := bob]> ∅).

(** A request of Bob for Alice's medical data that expires at time
    [1000]. *)
Definition request_at (s : Status) : doc :=
  {| requester := {| address := "0xb0b"; ensName := None;
                     displayName := None |};
     dataOwner := {| address := "0xa11ce"; ensName := Some "alice.eth";
                     displayName := None |};
     dataType := "medical";
     purpose := "second opinion";
     scope := {| fields := []; timeRange := None; accessLevel := "read" |};
     status := s;
     blockchainData := None;
     expiresAt := Some 1000;
     respondedAt := None;
     responseReason := None;
     isActive := true;
     createdAt := 10 |}.

Definition store_with (s : Status) : Store :=
  {| requests := <[1%nat := request_at s]> ∅; users := two_users |}.

Definition receipt : BlockchainData :=
  {| transactionHash := "0x5ec"; blockNumber := 18000001;
     gasUsed := 21000; timestamp := 500 |}.

Definition body_expiring_at (t : Z) : CreateBody :=
  {| dataOwnerAddress := Some "0xA11CE";
     b_dataType := Some "medical";
     b_purpose := Some "second opinion";
     b_scope := None;
     b_expiresAt := Some (ValidDate t) |}.

Definition empty_ledger : Store :=
  {| requests := ∅; users := two_users |}.

(** A stand-in runtime for the examples: a symbolic digest and a
    serialiser for scalar values. *)
Definition example_stringify (j : Json) : string :=
  match j with
  | JNull => "null"
  | JBool true => "true"
  | JBool false => "false"
  | JNum q => pretty (Qnum q)
  | JStr s => s
  | JArr _ => "[]"
  | JObj _ => "{}"
  end.

Definition example_runtime : Runtime :=
  {| sha256 := fun s => "sha256(" ++ s ++ ")";
     JSON_stringify := example_stringify;
     Number_toString := pretty |}.

(** Nobody is connected; Bob is connected. *)
Definition offline : Emitters.Connections :=
  {| Emitters.connectedUsers := ∅ |}.

Definition bob_online : Emitters.Connections :=
  {| Emitters.connectedUsers := <["0xb0b" := "socket-1"]> ∅ |}.

Definition access_body : SecurityMiddleware.DataAccessBody :=
  {| SecurityMiddleware.dataCID := Some "QmData";
     SecurityMiddleware.metadataCID := None;
     SecurityMiddleware.userAddress := Some "0xb0b";
     SecurityMiddleware.dataType := Some "medical" |}.

(** A holder with one stored credential, and the tokens of a
    presentation that wraps it.  [signed] is a token the JWT library
    accepts until its [exp] (in seconds). *)
Definition holder_credential : User.Credential :=
  {| User.cred_type := "medical"; User.cred_issuer := "did:ethr:0xc11n1c";
     User.credentialHash := "urn:uuid:1"; User.issuedAt := 0;
     User.cred_expiresAt := None; User.isRevoked := false |}.

Definition holder : User.doc :=
  {| User.address := "0xb0b"; User.ensName := None;
     User.displayName := None; User.ssiCredentials := [holder_credential];
     User.tokenBalance := 0; User.totalEarned := 0; User.isActive := true |}.

Definition credential_payload : SSI.Payload :=
  {| SSI.iss := Some "did:ethr:0xc11n1c"; SSI.sub := Some "did:ethr:0xb0b";
     SSI.exp := Some 2000000; SSI.nbf := Some 900000; SSI.nonce := None;
     SSI.vc_id := Some "urn:uuid:1"; SSI.vp := None |}.

Definition presentation_payload : SSI.Payload :=
  {| SSI.iss := Some "did:ethr:0xb0b"; SSI.sub := None;
     SSI.exp := Some 1003600; SSI.nbf := Some 1000000;
     SSI.nonce := Some "challenge-1"; SSI.vc_id := None;
     SSI.vp := Some {| SSI.holder := "did:ethr:0xb0b";
                       SSI.verifiableCredential := ["credential.jwt"];
                       SSI.challenge := "challenge-1" |} |}.

Definition signed (now : Z) (p : SSI.Payload) : option SSI.Payload :=
  let clock := now / 1000 in
  let expired := match SSI.exp p with Some e => e <=? clock | None => false end in
  let early := match SSI.nbf p with Some n => clock <? n | None => false end in
  if expired || early then None else Some p.

Definition example_env : SSI.Env :=
  {| SSI.jwt_verify := fun now token =>
       if String.eqb token "credential.jwt"
       then signed now credential_payload
       else if String.eqb token "presentation.jwt"
       then signed now presentation_payload
       else None;
     SSI.registry_resolveDID := fun did =>
       if String.eqb did "did:ethr:0xb0b" then Some ("0xb0b", 1, "doc-b0b")
       else if String.eqb did "did:ethr:0xc11n1c"
       then Some ("0xc11n1c", 2, "doc-clinic")
       else None |}.

Definition world : Server.World :=
  {| Server.users := <["0xb0b" := holder]> ∅; Server.ssi := example_env |}.

Definition presentation_body : SecurityMiddleware.SSIBody :=
  {| SecurityMiddleware.presentationJWT := Some "presentation.jwt";
     SecurityMiddleware.ssi_challenge := Some "challenge-1" |}.

Definition alert_of (s : AIAnalytics.Severity) : AIAnalytics.Alert :=
  {| AIAnalytics.alert_type := "unusual_access";
     AIAnalytics.severity := s;
     AIAnalytics.message := "Unusual access frequency detected" |}.

Definition profile : AIAnalytics.doc :=
  {| AIAnalytics.userId := "0xa11ce";
     AIAnalytics.accessPattern :=
       {| AIAnalytics.frequency := 6; AIAnalytics.timeOfDay := [3; 14];
          AIAnalytics.dayOfWeek := [2]; AIAnalytics.dataVolume := 450 # 1;
          AIAnalytics.accessDuration := 120 # 1 |};
     AIAnalytics.anomalyScore := 0;
     AIAnalytics.riskLevel := AIAnalytics.low;
     AIAnalytics.alerts := [] |}.

End Fixtures.

(* ===================================================================== *)
(** * Further code of the same files *)
(* ===================================================================== *)

(** ** models/ConsentRequest.js: the [timeUntilExpiry] virtual *)

Module ConsentVirtuals.
Import ConsentRequest.

(** [null] without an expiry, else
    [Math.max(0, expiry.getTime() - now.getTime())]. *)
Definition timeUntilExpiry (now : Z) (d : doc) : option Z :=
  match expiresAt d with
  | None => None
  | Some e => Some (Z.max 0 (e - now))
  end.

End ConsentVirtuals.

(** ** routes/users: GET /stats/:address *)

Module UserStats.

Record Stats := {
  totalCredentials : nat;
  activeCredentials : nat;
  tokenBalance : Z;
  totalEarned : Z
}.

(** [user.ssiCredentials.filter(c => !c.isRevoked)]. *)
Definition active (cs : list User.Credential) : list User.Credential :=
  filter (fun c => User.isRevoked c = false) cs.

Definition stats_of (user : User.doc) : Stats :=
  {| totalCredentials := length (User.ssiCredentials user);
     activeCredentials := length (active (User.ssiCredentials user));
     tokenBalance := User.tokenBalance user;
     totalEarned := User.totalEarned user |}.

(** The route: [None] is the 404 answer. *)
Definition stats_route (users : gmap string User.doc) (address : string)
  : option Stats :=
  stats_of <$> User.findByAddress users address.

End UserStats.

(** ** Property reads and [===] on parsed JSON *)

Module JsObject.

(** The value a parsed object holds under a key: the last member with
    that key. *)
Fixpoint member (k : string) (members : list (string * Json)) : option Json :=
  match members with
  | [] => None
  | (k', v) :: rest =>
      match member k rest with
      | Some v' => Some v'
      | None => if String.eqb k' k then Some v else None
      end
  end.

(** The outcome of reading [o.k]. *)
Inductive Read :=
| TypeError
| Value (v : option Json).

(** [o.k] for the property names the proof service reads ([country],
    [state], [type], [issuer], [status]): a [TypeError] on [null],
    [undefined] on every other value that is not an object, and the
    member or [undefined] on an object. *)
Definition get (o : Json) (k : string) : Read :=
  match o with
  | JNull => TypeError
  | JObj members => Value (member k members)
  | _ => Value None
  end.

(** [a === b] on two values read from parsed JSON: [undefined] equals
    [undefined], scalars are compared by value, and two arrays or
    objects parsed from a request are never the same object. *)
Definition strict_eq (a b : option Json) : bool :=
  match a, b with
  | None, None => true
  | Some JNull, Some JNull => true
  | Some (JBool x), Some (JBool y) => Bool.eqb x y
  | Some (JNum x), Some (JNum y) => Qeq_bool x y
  | Some (JStr x), Some (JStr y) => String.eqb x y
  | _, _ => false
  end.

End JsObject.

(** ** services/zkp-service.js: location and credential proofs *)

Module ZKPGenerators.
Section Generators.
Context `{Runtime}.
Import JsObject.

(** [userLocation.country === region.country &&
     userLocation.state === region.state]; [None] is a thrown
    [TypeError]. *)
Definition region_matches (userLocation region : Json) : option bool :=
  match get userLocation "country", get region "country" with
  | Value a, Value b =>
      if strict_eq a b then
        match get userLocation "state", get region "state" with
        | Value c, Value d => Some (strict_eq c d)
        | _, _ => None
        end
      else Some false
  | _, _ => None
  end.

(** [allowedRegions.some(region => ...)]: stops at the first match. *)
Fixpoint some_region (userLocation : Json) (allowedRegions : list Json)
  : option bool :=
  match allowedRegions with
  | [] => Some false
  | region :: rest =>
      match region_matches userLocation region with
      | None => None
      | Some true => Some true
      | Some false => some_region userLocation rest
      end
  end.

(** [generateLocationProof]; [None] is the rethrown error. *)
Definition generateLocationProof (now : Z) (entropy : nat -> Byte.byte)
    (userLocation : Json) (allowedRegions : list Json) : option ZKP.Proof :=
  let locationHash := sha256 (JSON_stringify userLocation) in
  let regionsHash := sha256 (JSON_stringify (JArr allowedRegions)) in
  match some_region userLocation allowedRegions with
  | None => None
  | Some isInAllowedRegion =>
      Some {| ZKP.commitments := [locationHash; regionsHash];
              ZKP.isValid := isInAllowedRegion;
              ZKP.timestamp := now;
              ZKP.nonce :=
                NodeCrypto.toString_hex (NodeCrypto.randomBytes entropy 16) |}
  end.

(** [cred.type === required.type && cred.issuer === required.issuer &&
     cred.status === 'valid']. *)
Definition credential_matches (cred required : Json) : option bool :=
  match get cred "type", get required "type" with
  | Value a, Value b =>
      if strict_eq a b then
        match get cred "issuer", get required "issuer" with
        | Value c, Value d =>
            if strict_eq c d then
              match get cred "status" with
              | Value s => Some (strict_eq s (Some (JStr "valid")))
              | TypeError => None
              end
            else Some false
        | _, _ => None
        end
      else Some false
  | _, _ => None
  end.

(** [credentials.some(cred => ...)]. *)
Fixpoint some_credential (required : Json) (credentials : list Json)
  : option bool :=
  match credentials with
  | [] => Some false
  | cred :: rest =>
      match credential_matches cred required with
      | None => None
      | Some true => Some true
      | Some false => some_credential required rest
      end
  end.

(** [requiredCredentials.every(required => ...)]: stops at the first
    requirement that is not met. *)
Fixpoint every_required (credentials requiredCredentials : list Json)
  : option bool :=
  match requiredCredentials with
  | [] => Some true
  | required :: rest =>
      match some_credential required credentials with
      | None => None
      | Some false => Some false
      | Some true => every_required credentials rest
      end
  end.

(** [generateCredentialProof]; the two arrays of hashes are kept in
    order, the credentials' first. *)
Definition generateCredentialProof (now : Z) (entropy : nat -> Byte.byte)
    (credentials requiredCredentials : list Json) : option ZKP.Proof :=
  let credentialHashes := map ZKP.leaf_hash credentials in
  let requiredHashes := map ZKP.leaf_hash requiredCredentials in
  match every_required credentials requiredCredentials with
  | None => None
  | Some hasAllRequired =>
      Some {| ZKP.commitments := credentialHashes ++ requiredHashes;
              ZKP.isValid := hasAllRequired;
              ZKP.timestamp := now;
              ZKP.nonce :=
                NodeCrypto.toString_hex (NodeCrypto.randomBytes entropy 16) |}
  end.

End Generators.
End ZKPGenerators.

(** ** services/ens-service.js: ownership check *)

Module ENSService.

(** [ensContract.owner(namehash(name))]; [None] when the call rejects. *)
Class Env := {
  owner_of : string -> option string
}.

(** [verifyENSOwnership]: every thrown error is answered [false]. *)
Definition verifyENSOwnership `{Env} (ensName address : option string)
  : bool :=
  match ensName with
  | None => false
  | Some name =>
      match owner_of name with
      | None => false
      | Some owner =>
          match address with
          | None => false
          | Some a => String.eqb (JS.toLowerCase owner) (JS.toLowerCase a)
          end
      end
  end.

End ENSService.

(** ** middleware/security.js: multi-factor check and rate limit *)

Module SecurityGates.
Import SecurityMiddleware.

Record SecurityVerification := {
  ensVerified : bool;
  zkpVerified : bool;
  ssiVerified : bool;
  dataAccessVerified : bool;
  sv_timestamp : Z
}.

(** The fields [multiFactorSecurity] reads from [req.body]; [raw] is the
    body itself, handed to [verifyProof] as verification data. *)
Record MultiFactorBody := {
  ensName : option string;
  mf_userAddress : option string;
  zkpProof : option ZKP.Proof;
  ssiPresentation : option string;
  mf_challenge : option string;
  mf_dataCID : option string;
  raw : Json
}.

Section Gates.
Context `{Runtime} `{SSI.Env} `{ENSService.Env}.

(** [multiFactorSecurity]. *)
Definition multiFactorSecurity (dataExists : string -> bool) (now : Z)
    (body : MultiFactorBody) : Result SecurityVerification :=
  if negb (ENSService.verifyENSOwnership (ensName body) (mf_userAddress body))
  then Respond 403 "ENS ownership verification failed"
  else if match zkpProof body with
          | Some proof =>
              negb (ZKP.v_isValid (ZKP.verifyProof now proof (raw body)))
          | None => false
          end
  then Respond 403 "ZKP verification failed"
  else if JS.truthy (ssiPresentation body) && JS.truthy (mf_challenge body) &&
          negb (SSI.pv_isValid
                  (SSI.verifyPresentation now
                     (JS.or_default (ssiPresentation body) "")
                     (JS.or_default (mf_challenge body) "")))
  then Respond 403 "SSI verification failed"
  else if JS.truthy (mf_dataCID body) &&
          negb (dataExists (JS.or_default (mf_dataCID body) ""))
  then Respond 404 "Data not found on IPFS"
  else Next {| ensVerified := true;
               zkpVerified := bool_decide (is_Some (zkpProof body));
               ssiVerified := JS.truthy (ssiPresentation body);
               dataAccessVerified := JS.truthy (mf_dataCID body);
               sv_timestamp := now |}.

End Gates.

(** What [rateLimitSecurity] reads from the request: the address in the
    body, the [x-user-address] header, and the request's own
    [securityRateLimit] map when it has one. *)
Record RateRequest := {
  rr_body_userAddress : option string;
  rr_header_userAddress : option string;
  securityRateLimit : option (gmap string (list Z))
}.

Definition windowMs : Z := 60 * 1000.
Definition maxRequests : nat := 10.

(** [rateLimitSecurity]: the answer, or the map the request carries when
    [next()] is called. *)
Definition rateLimitSecurity (now : Z) (req : RateRequest)
  : Result (gmap string (list Z)) :=
  let userAddress :=
    if JS.truthy (rr_body_userAddress req) then rr_body_userAddress req
    else rr_header_userAddress req in
  if negb (JS.truthy userAddress)
  then Respond 400 "User address required for rate limiting"
  else
    let user := JS.or_default userAddress "" in
    let limits := JS.or_default (securityRateLimit req) ∅ in
    let userRequests := JS.or_default (limits !! user) [] in
    let validRequests :=
      filter (fun time => now - time < windowMs) userRequests in
    if (maxRequests <=? length validRequests)%nat
    then Respond 429 "Rate limit exceeded for security operations"
    else Next (<[user := (validRequests ++ [now])%list]> limits).

End SecurityGates.

(** ** services/aiCoPilot.js: access patterns and anomaly rules *)

Module Monitor.
Import AIAnalytics AICoPilot.

(** [Date.prototype.getHours] and [getDay] in the server's time zone. *)
Class Locale := {
  getHours : Z -> Z;
  getDay : Z -> Z
}.

(** The text of the four alert messages, which format numbers. *)
Class Messages := {
  frequency_message : nat -> string;
  volume_message : Q -> string;
  hours_message : list Z -> string;
  violation_message : nat -> nat -> string
}.

(** The constructor's [alertThresholds]. *)
Definition unusualAccessFrequency : nat := 5.
Definition dataVolumeThreshold : Q := 1000 # 1.
Definition consentViolationThreshold : Q := 1 # 10.

(** [if (!list.includes(x)) list.push(x)]. *)
Definition push_new (l : list Z) (x : Z) : list Z :=
  if existsb (Z.eqb x) l then l else l ++ [x].

Section Sweep.
Context `{Locale} `{Messages} `{Emitters.Connections}.

(** [calculateAccessPattern]; the two random totals are inputs. *)
Definition calculateAccessPattern (requests : list ConsentRequest.doc)
    (totalDataVolume totalDuration : Q) : AccessPattern :=
  {| frequency := Z.of_nat (length requests);
     timeOfDay :=
       foldl (fun l r => push_new l (getHours (ConsentRequest.createdAt r)))
             [] requests;
     dayOfWeek :=
       foldl (fun l r => push_new l (getDay (ConsentRequest.createdAt r)))
             [] requests;
     dataVolume := totalDataVolume;
     accessDuration := totalDuration |}.

Definition unusual_hour (hour : Z) : bool := (hour <? 6) || (22 <? hour).

Definition denied (r : ConsentRequest.doc) : bool :=
  bool_decide (ConsentRequest.status r = ConsentRequest.denied).

(** [deniedRequests.length / recentRequests.length >
     consentViolationThreshold]; the quotient of two zero lengths is
    [NaN], which exceeds nothing. *)
Definition violation_exceeds (deniedCount total : nat) : bool :=
  match total with
  | O => false
  | S _ => Qgtb (Z.of_nat deniedCount # Pos.of_nat total)
                consentViolationThreshold
  end.

(** The [anomalies] array of [checkForAnomalies]. *)
Definition detect (pattern : AccessPattern)
    (recentRequests : list ConsentRequest.doc) : list Alert :=
  let unusualHours := filter (fun h => unusual_hour h = true)
                             (timeOfDay pattern) in
  let deniedRequests := filter (fun r => denied r = true) recentRequests in
  (if (unusualAccessFrequency <? length recentRequests)%nat
   then [ {| alert_type := "unusual_access"; severity := warning;
             message := frequency_message (length recentRequests) |} ]
   else []) ++
  (if Qgtb (dataVolume pattern) dataVolumeThreshold
   then [ {| alert_type := "data_breach"; severity := error;
             message := volume_message (dataVolume pattern) |} ]
   else []) ++
  (if (0 <? length unusualHours)%nat
   then [ {| alert_type := "unusual_access"; severity := warning;
             message := hours_message unusualHours |} ]
   else []) ++
  (if violation_exceeds (length deniedRequests) (length recentRequests)
   then [ {| alert_type := "consent_violation"; severity := error;
             message := violation_message (length deniedRequests)
                                          (length recentRequests) |} ]
   else []).

(** The state of a profile after a call, and whether the call returned
    or threw on the way. *)
Record Swept := {
  stored : doc;
  returned : bool
}.

(** The [for (const anomaly of anomalies)] loop: [addAlert] saves the
    alert, then [emitToUser] is called; when that throws, the loop ends
    with the alerts saved so far. *)
Fixpoint alert_loop (userAnalytics : doc) (anomalies : list Alert) : Swept :=
  match anomalies with
  | [] => {| stored := userAnalytics; returned := true |}
  | anomaly :: rest =>
      let saved := addAlert anomaly userAnalytics in
      match Emitters.emitToUser (userId saved) "ai_alert" with
      | Emitters.ReferenceError => {| stored := saved; returned := false |}
      | Emitters.NoSocket => alert_loop saved rest
      end
  end.

(** [checkForAnomalies]: the score is stored, then the loop runs. *)
Definition checkForAnomalies (userAnalytics : doc)
    (recentRequests : list ConsentRequest.doc) : Swept :=
  let anomalies := detect (accessPattern userAnalytics) recentRequests in
  let anomalyScore := calculateAnomalyScore anomalies userAnalytics in
  alert_loop (updateAnomalyScore anomalyScore userAnalytics) anomalies.

Definition set_accessPattern (p : AccessPattern) (d : doc) : doc :=
  {| userId := userId d; accessPattern := p;
     anomalyScore := anomalyScore d; riskLevel := riskLevel d;
     alerts := alerts d |}.

(** [analyzeUserPatterns] on the requests its query returned. *)
Definition analyzeUserPatterns (userAnalytics : doc)
    (recentRequests : list ConsentRequest.doc)
    (totalDataVolume totalDuration : Q) : Swept :=
  let accessPattern :=
    calculateAccessPattern recentRequests totalDataVolume totalDuration in
  checkForAnomalies (set_accessPattern accessPattern userAnalytics)
                    recentRequests.

End Sweep.
End Monitor.

(** ** Notions and data for the further properties *)

Module Notions.
Import ConsentRequest ConsentRoutes.

(** The statuses with no outgoing edge. *)
Definition terminal (s : Status) : Prop :=
  s = denied ∨ s = expired ∨ s = revoked.

(** The user collection is keyed by the stored address, which the schema
    setters have trimmed and lower-cased. *)
Definition keyed_by_address (users : gmap string User.doc) : Prop :=
  ∀ k u, users !! k = Some u → User.address u = k ∧ address_setter k = k.

End Notions.

Module MoreFixtures.

(** A holder whose two stored credentials carry the same hash. *)
Definition twin_holder : User.doc :=
  User.set_credentials Fixtures.holder
    [Fixtures.holder_credential; Fixtures.holder_credential].

(** A presentation token that wraps no credential. *)
Definition empty_presentation_payload : SSI.Payload :=
  {| SSI.iss := Some "did:ethr:0xb0b"; SSI.sub := None;
     SSI.exp := Some 1003600; SSI.nbf := Some 1000000;
     SSI.nonce := Some "challenge-2"; SSI.vc_id := None;
     SSI.vp := Some {| SSI.holder := "did:ethr:0xb0b";
                       SSI.verifiableCredential := [];
                       SSI.challenge := "challenge-2" |} |}.

Definition empty_presentation_env : SSI.Env :=
  {| SSI.jwt_verify := fun now token =>
       if String.eqb token "empty.jwt"
       then Fixtures.signed now empty_presentation_payload
       else None;
     SSI.registry_resolveDID := @SSI.registry_resolveDID Fixtures.example_env |}.

(** A name registry in which [alice.eth] belongs to a checksummed
    address. *)
Definition example_ens : ENSService.Env :=
  {| ENSService.owner_of := fun name =>
       if String.eqb name "alice.eth" then Some "0xA11CE" else None |}.

(** A multi-factor request that names a presentation and no challenge. *)
Definition unchallenged_body : SecurityGates.MultiFactorBody :=
  {| SecurityGates.ensName := Some "alice.eth";
     SecurityGates.mf_userAddress := Some "0xa11ce";
     SecurityGates.zkpProof := None;
     SecurityGates.ssiPresentation := Some "not-a-token";
     SecurityGates.mf_challenge := None;
     SecurityGates.mf_dataCID := None;
     SecurityGates.raw := JNull |}.

(** A server clock in UTC, plain message texts, and six requests of one
    day, the first made at three in the morning. *)
Definition utc : Monitor.Locale :=
  {| Monitor.getHours := fun t => (t / 3600000) mod 24;
     Monitor.getDay := fun t => (t / 86400000 + 4) mod 7 |}.

Definition plain_messages : Monitor.Messages :=
  {| Monitor.frequency_message := fun n =>
       "Unusual access frequency detected: " ++ pretty n
       ++ " requests in 24 hours";
     Monitor.volume_message := fun _ => "Large data volume detected";
     Monitor.hours_message := fun _ =>
       "Data access detected during unusual hours";
     Monitor.violation_message := fun _ _ =>
       "High consent violation rate" |}.

Definition request_made_at (t : Z) : ConsentRequest.doc :=
  {| ConsentRequest.requester := ConsentRequest.requester
                                   (Fixtures.request_at ConsentRequest.pending);
     ConsentRequest.dataOwner := ConsentRequest.dataOwner
                                   (Fixtures.request_at ConsentRequest.pending);
     ConsentRequest.dataType := "medical";
     ConsentRequest.purpose := "second opinion";
     ConsentRequest.scope := ConsentRequest.scope
                               (Fixtures.request_at ConsentRequest.pending);
     ConsentRequest.status := ConsentRequest.pending;
     ConsentRequest.blockchainData := None;
     ConsentRequest.expiresAt := Some (t + 86400000);
     ConsentRequest.respondedAt := None;
     ConsentRequest.responseReason := None;
     ConsentRequest.isActive := true;
     ConsentRequest.createdAt := t |}.

(** Alice, the monitored user of [Fixtures.profile], holds a socket. *)
Definition alice_online : Emitters.Connections :=
  {| Emitters.connectedUsers := <["0xa11ce" := "socket-2"]> ∅ |}.

Definition busy_day : list ConsentRequest.doc :=
  map request_made_at
      [10800000; 36000000; 39600000; 43200000; 46800000; 50400000].

End MoreFixtures.

(* ===================================================================== *)
(** * Consent ledger: lifecycle *)
(* ===================================================================== *)

Section ConsentLifecycle.
Context `{Emitters.Connections}.
Import ConsentRequest ConsentRoutes.

Lemma status_set_status s d : status (set_status s d) = s.
Proof. reflexivity. Qed.

Lemma status_set_response t r d : status (set_response t r d) = status d.
Proof. reflexivity. Qed.

Lemma status_set_blockchainData b d :
  status (set_blockchainData b d) = status d.
Proof. reflexivity. Qed.

(** The hook only ever moves [pending] to [expired]. *)
Lemma pre_save_status now d :
  status (pre_save now d) = status d ∨
  (status d = pending ∧ isExpired now d = true ∧
   status (pre_save now d) = expired).
Proof.
  unfold pre_save.
  destruct (isExpired now d) eqn:He; simpl; [|by left].
  case_bool_decide as Hs; simpl; [right; done | by left].
Qed.

Lemma pre_save_not_pending now d :
  status d ≠ pending → pre_save now d = d.
Proof.
  intros Hs. unfold pre_save.
  rewrite (bool_decide_eq_false_2 _ Hs), andb_false_r. reflexivity.
Qed.

Lemma pre_save_edge now d :
  status (pre_save now d) = status d ∨ edge (status d) (status (pre_save now d)).
Proof.
  destruct (pre_save_status now d) as [->|(-> & _ & ->)];
    [by left | right; constructor].
Qed.

Lemma eqb_address_true (a b : string) : String.eqb a b = true ↔ a = b.
Proof. apply String.eqb_eq. Qed.

Lemma eqb_address_false (a b : string) : String.eqb a b = false ↔ a ≠ b.
Proof. apply String.eqb_neq. Qed.

Lemma source_target_edge a : edge (source a) (target a).
Proof. destruct a; constructor. Qed.

Lemma target_not_pending a : target a ≠ pending.
Proof. destruct a; discriminate. Qed.

(** What [run] does once the three guards have been decided. *)
Lemma run_not_found a st now actor id reason bc :
  requests st !! id = None →
  run a st now actor id reason bc = fail st 404 "Consent request not found".
Proof. intros Hl. destruct a; simpl; unfold approve_route, deny_route, revoke_route; by rewrite Hl. Qed.

Lemma run_forbidden a st now actor id reason bc d :
  requests st !! id = Some d →
  address (dataOwner d) ≠ actor →
  ∃ msg, run a st now actor id reason bc = fail st 403 msg.
Proof.
  intros Hl Hne. apply eqb_address_false in Hne.
  destruct a; simpl; unfold approve_route, deny_route, revoke_route;
    rewrite Hl, Hne; simpl; eauto.
Qed.

Lemma run_forbidden_message a st now actor id reason bc d :
  requests st !! id = Some d →
  address (dataOwner d) ≠ actor →
  run a st now actor id reason bc
    = fail st 403 (match a with
                   | Approve => "Only the data owner can approve this request"
                   | Deny => "Only the data owner can deny this request"
                   | Revoke => "Only the data owner can revoke this request"
                   end).
Proof.
  intros Hl Hne. apply eqb_address_false in Hne.
  destruct a; simpl; unfold approve_route, deny_route, revoke_route;
    by rewrite Hl, Hne.
Qed.

Lemma run_invalid_state a st now actor id reason bc d :
  requests st !! id = Some d →
  address (dataOwner d) = actor →
  status d ≠ source a →
  run a st now actor id reason bc = fail st 400 (invalid_state_message a).
Proof.
  intros Hl Ho Hs. apply eqb_address_true in Ho.
  destruct a; simpl in *; unfold approve_route, deny_route, revoke_route;
    rewrite Hl, Ho; simpl;
    rewrite (bool_decide_eq_false_2 _ Hs); reflexivity.
Qed.

(** With all three guards passed the model method saves the new status;
    the answer depends on whether the requester has a socket. *)
Lemma run_performed a st now actor id reason bc d :
  requests st !! id = Some d →
  address (dataOwner d) = actor →
  status d = source a →
  ∃ d', requests (store (run a st now actor id reason bc)) =
          <[id := d']> (requests st) ∧
        users (store (run a st now actor id reason bc)) = users st ∧
        status d' = target a ∧
        respondedAt d' = Some now ∧
        responseReason d' = Some (JS.or_default reason "") ∧
        requester d' = requester d ∧
        dataOwner d' = dataOwner d ∧
        emitted (run a st now actor id reason bc) = [] ∧
        response (run a st now actor id reason bc) =
          if JS.truthy (Emitters.connectedUsers
                          !! JS.toLowerCase (address (requester d)))
          then Error 500 (match a with
                          | Approve => "Failed to approve consent request"
                          | Deny => "Failed to deny consent request"
                          | Revoke => "Failed to revoke consent request"
                          end)
          else Reply 200 (match a with
                          | Approve => "Consent request approved successfully"
                          | Deny => "Consent request denied successfully"
                          | Revoke => "Consent request revoked successfully"
                          end) d'.
Proof.
  intros Hl Ho Hs. apply eqb_address_true in Ho.
  destruct a;
    [ exists (set_blockchainData bc
                (set_response now (JS.or_default reason "")
                   (set_status approved d)))
    | exists (set_response now (JS.or_default reason "")
                (set_status denied d))
    | exists (set_response now (JS.or_default reason "")
                (set_status revoked d)) ];
    simpl in *;
    unfold approve_route, deny_route, revoke_route;
    rewrite Hl, Ho; simpl;
    rewrite (bool_decide_eq_true_2 _ Hs); simpl;
    unfold approve, deny, revoke, setBlockchainData, save;
    rewrite (pre_save_not_pending now (set_response _ _ (set_status _ d)))
      by (simpl; discriminate);
    rewrite ?pre_save_not_pending by (simpl; discriminate); simpl;
    unfold Emitters.emitToUser; simpl;
    destruct (JS.truthy _); simpl;
    rewrite ?insert_insert_eq; repeat split; reflexivity.
Qed.

(** Calls that address another request, or none, leave [id] alone. *)
Lemma run_other a st now actor id reason bc j :
  j ≠ id →
  requests (store (run a st now actor id reason bc)) !! j = requests st !! j.
Proof.
  intros Hj.
  destruct (requests st !! id) as [d|] eqn:Hl;
    [|by rewrite run_not_found].
  destruct (decide (address (dataOwner d) = actor)) as [Ho|Ho].
  - destruct (decide (status d = source a)) as [Hs|Hs].
    + destruct (run_performed a st now actor id reason bc d Hl Ho Hs)
        as (d' & -> & _).
      by rewrite lookup_insert_ne.
    + by rewrite (run_invalid_state a st now actor id reason bc d).
  - by destruct (run_forbidden a st now actor id reason bc d Hl Ho) as [? ->].
Qed.

(** A call keeps the status of the request it addresses or moves it
    along one edge. *)
Lemma run_keeps_or_moves a st now actor id reason bc d :
  requests st !! id = Some d →
  ∃ d', requests (store (run a st now actor id reason bc)) !! id = Some d' ∧
        (status d' = status d ∨ edge (status d) (status d')).
Proof.
  intros Hl.
  destruct (decide (address (dataOwner d) = actor)) as [Ho|Ho].
  - destruct (decide (status d = source a)) as [Hs|Hs].
    + destruct (run_performed a st now actor id reason bc d Hl Ho Hs)
        as (d' & -> & _ & Ht & _).
      exists d'. rewrite lookup_insert_eq. split; [done|].
      right. rewrite Ht, Hs. apply source_target_edge.
    + rewrite (run_invalid_state a st now actor id reason bc d) by done.
      exists d. by split; [|left].
  - destruct (run_forbidden a st now actor id reason bc d Hl Ho) as [? ->].
    exists d. by split; [|left].
Qed.


End ConsentLifecycle.

Section ExpirySweep.
Import ConsentRequest ConsentRoutes.

(** A left fold of writes: keys that do not occur keep their binding,
    and a key that occurs once gets the written value. *)
Lemma foldl_write_other (f : doc → doc) (l : list (nat * doc))
    (c : gmap nat doc) (id : nat) :
  id ∉ l.*1 →
  foldl (λ c p, <[p.1 := f p.2]> c) c l !! id = c !! id.
Proof.
  revert c. induction l as [|[k v] l IH]; intros c Hni; [done|].
  simpl in *. apply not_elem_of_cons in Hni as [Hne Hni].
  rewrite IH by done. by rewrite lookup_insert_ne.
Qed.

Lemma foldl_write_here (f : doc → doc) (l : list (nat * doc))
    (c : gmap nat doc) (id : nat) (d : doc) :
  NoDup l.*1 → (id, d) ∈ l →
  foldl (λ c p, <[p.1 := f p.2]> c) c l !! id = Some (f d).
Proof.
  revert c. induction l as [|[k v] l IH]; intros c Hnd Hin.
  - by apply elem_of_nil in Hin.
  - simpl in *. apply NoDup_cons in Hnd as [Hk Hnd].
    apply elem_of_cons in Hin as [Heq|Hin].
    + injection Heq as -> ->.
      rewrite foldl_write_other by done. by rewrite lookup_insert_eq.
    + by apply IH.
Qed.

Lemma expired_matches_NoDup now (coll : gmap nat doc) :
  NoDup (findExpiredRequests now coll).*1.
Proof.
  unfold findExpiredRequests.
  eapply sublist_NoDup; [apply (NoDup_fst_map_to_list coll)|].
  apply fmap_sublist, sublist_filter.
Qed.

Lemma elem_of_findExpiredRequests now (coll : gmap nat doc) id d :
  (id, d) ∈ findExpiredRequests now coll ↔
  expired_query now d = true ∧ coll !! id = Some d.
Proof.
  unfold findExpiredRequests.
  rewrite list_elem_of_filter, elem_of_map_to_list. done.
Qed.

(** The sweep rewrites exactly the requests the query selects. *)
Lemma sweep_lookup now (coll : gmap nat doc) id :
  Cleanup.sweep now coll !! id =
  (λ d, if expired_query now d then set_status expired d else d)
    <$> coll !! id.
Proof.
  unfold Cleanup.sweep.
  pose (f := λ d, pre_save now (set_status expired d)).
  change (foldl _ coll (findExpiredRequests now coll))
    with (foldl (λ c p, <[p.1 := f p.2]> c)
                coll (findExpiredRequests now coll)).
  destruct (coll !! id) as [d|] eqn:Hl; simpl.
  - destruct (expired_query now d) eqn:Hq.
    + rewrite (foldl_write_here f _ _ id d).
      * unfold f. by rewrite pre_save_not_pending.
      * apply expired_matches_NoDup.
      * by apply elem_of_findExpiredRequests.
    + rewrite (foldl_write_other f); [done|].
      intros ([k d'] & -> & Hin)%list_elem_of_fmap.
      apply elem_of_findExpiredRequests in Hin as [Hq' Hl']. simpl in *.
      congruence.
  - rewrite (foldl_write_other f); [done|].
    intros ([k d'] & -> & Hin)%list_elem_of_fmap.
    apply elem_of_findExpiredRequests in Hin as [Hq' Hl']. simpl in *.
    congruence.
Qed.

Lemma sweep_edge now (coll : gmap nat doc) id d :
  coll !! id = Some d →
  ∃ d', Cleanup.sweep now coll !! id = Some d' ∧
        (status d' = status d ∨ edge (status d) (status d')).
Proof.
  intros Hl. rewrite sweep_lookup, Hl. simpl. eexists; split; [done|].
  unfold expired_query. case_bool_decide as Hs; simpl; [|by left].
  destruct (expiresAt d) as [e|]; [|by left].
  destruct (e <? now); [|by left].
  right. simpl. rewrite Hs. constructor.
Qed.

End ExpirySweep.

Section ConsentClaims.
Context `{Emitters.Connections}.
Import ConsentRequest ConsentRoutes.

(** C1. Every approve, deny or revoke request moves the status of the
    addressed consent request only along the lifecycle graph
    pending -> approved | denied | expired and approved -> revoked.
    The transition is performed exactly when the caller is the data owner
    and the status is the one the action requires ([pending] for approve
    and deny, [approved] for revoke); the request then has the action's
    target status.  The call succeeds (answer 200) only in that case, and
    then exactly when the requester has no socket: when the requester is
    connected the notification throws after the save and the answer is
    500 although the transition has been made.  An attempt by the owner
    from any other status is answered with the 400 invalid-state error
    and leaves the stores as they were; an attempt by anyone else is
    answered 403 and changes nothing; no other request is touched. *)
Theorem consent_transitions_follow_lifecycle
    (a : Action) (st : Store) (now : Z) (actor : string) (id : nat)
    (reason : option string) (bc : BlockchainData) (d : doc)
    (Hstored : requests st !! id = Some d) :
  let out := run a st now actor id reason bc in
  let requester_connected :=
    JS.truthy (Emitters.connectedUsers
                 !! JS.toLowerCase (address (requester d))) in
  (store out ≠ st ↔ address (dataOwner d) = actor ∧ status d = source a) ∧
  (address (dataOwner d) = actor → status d = source a →
     ∃ d', requests (store out) = <[id := d']> (requests st) ∧
           users (store out) = users st ∧
           status d' = target a ∧
           response out =
             if requester_connected
             then Error 500
                    (match a with
                     | Approve => "Failed to approve consent request"
                     | Deny => "Failed to deny consent request"
                     | Revoke => "Failed to revoke consent request"
                     end)
             else Reply 200
                    (match a with
                     | Approve => "Consent request approved successfully"
                     | Deny => "Consent request denied successfully"
                     | Revoke => "Consent request revoked successfully"
                     end) d') ∧
  (succeeded out ↔
     address (dataOwner d) = actor ∧ status d = source a ∧
     requester_connected = false) ∧
  (address (dataOwner d) = actor → status d ≠ source a →
     response out = Error 400 (invalid_state_message a) ∧ store out = st) ∧
  (address (dataOwner d) ≠ actor →
     store out = st ∧
     response out =
       Error 403 (match a with
                  | Approve => "Only the data owner can approve this request"
                  | Deny => "Only the data owner can deny this request"
                  | Revoke => "Only the data owner can revoke this request"
                  end)) ∧
  (∃ d', requests (store out) !! id = Some d' ∧
         (status d' = status d ∨ edge (status d) (status d'))) ∧
  (∀ j, j ≠ id → requests (store out) !! j = requests st !! j).
Proof.
  intros out connected. subst out connected.
  split; [|split; [|split; [|split; [|split; [|split]]]]].
  - split.
    + intros Hchanged.
      destruct (decide (address (dataOwner d) = actor)) as [Ho|Ho].
      * destruct (decide (status d = source a)) as [Hs|Hs]; [done|].
        exfalso. apply Hchanged.
        by rewrite (run_invalid_state a st now actor id reason bc d).
      * exfalso. apply Hchanged.
        by destruct (run_forbidden a st now actor id reason bc d Hstored Ho)
          as [msg ->].
    + intros [Ho Hs] Hsame.
      destruct (run_performed a st now actor id reason bc d Hstored Ho Hs)
        as (d' & Hreq & _ & Ht & _).
      rewrite Hsame in Hreq.
      assert (Hl : requests st !! id = Some d')
        by (rewrite Hreq; apply lookup_insert_eq).
      assert (d' = d) as -> by congruence.
      rewrite Hs in Ht. destruct a; discriminate.
  - intros Ho Hs.
    destruct (run_performed a st now actor id reason bc d Hstored Ho Hs)
      as (d' & Hreq & Hu & Ht & _ & _ & _ & _ & _ & Hr).
    exists d'. done.
  - unfold succeeded. split.
    + intros Hsucc.
      destruct (decide (address (dataOwner d) = actor)) as [Ho|Ho].
      * destruct (decide (status d = source a)) as [Hs|Hs].
        -- destruct (run_performed a st now actor id reason bc d Hstored Ho Hs)
             as (d' & _ & _ & _ & _ & _ & _ & _ & _ & Hr).
           rewrite Hr in Hsucc.
           by destruct (JS.truthy _).
        -- by rewrite (run_invalid_state a st now actor id reason bc d)
             in Hsucc.
      * by destruct (run_forbidden a st now actor id reason bc d Hstored Ho)
          as [msg Hm]; rewrite Hm in Hsucc.
    + intros (Ho & Hs & Hoff).
      destruct (run_performed a st now actor id reason bc d Hstored Ho Hs)
        as (d' & _ & _ & _ & _ & _ & _ & _ & _ & Hr).
      by rewrite Hr, Hoff.
  - intros Ho Hs.
    by rewrite (run_invalid_state a st now actor id reason bc d Hstored Ho Hs).
  - intros Ho.
    by rewrite (run_forbidden_message a st now actor id reason bc d
                  Hstored Ho).
  - by apply run_keeps_or_moves.
  - intros j Hj. by apply run_other.
Qed.

End ConsentClaims.

Lemma consent_transitions_witness :
  ConsentRoutes.requests (Fixtures.store_with ConsentRequest.pending) !! 1%nat
    = Some (Fixtures.request_at ConsentRequest.pending) ∧
  ConsentRoutes.succeeded
    (@ConsentRoutes.run Fixtures.offline ConsentRoutes.Approve
       (Fixtures.store_with ConsentRequest.pending) 500 "0xa11ce" 1
       None Fixtures.receipt) ∧
  ConsentRoutes.response
    (@ConsentRoutes.run Fixtures.bob_online ConsentRoutes.Approve
       (Fixtures.store_with ConsentRequest.pending) 500 "0xa11ce" 1
       None Fixtures.receipt)
  = ConsentRoutes.Error 500 "Failed to approve consent request".
Proof.
  assert (H : ConsentRoutes.requests
                (Fixtures.store_with ConsentRequest.pending) !! 1%nat
              = Some (Fixtures.request_at ConsentRequest.pending))
    by reflexivity.
  split; [exact H|]. split.
  - apply (@consent_transitions_follow_lifecycle Fixtures.offline
             ConsentRoutes.Approve (Fixtures.store_with ConsentRequest.pending)
             500 "0xa11ce" 1 None Fixtures.receipt
             (Fixtures.request_at ConsentRequest.pending) H).
    repeat split; reflexivity.
  - destruct (@consent_transitions_follow_lifecycle Fixtures.bob_online
                ConsentRoutes.Approve
                (Fixtures.store_with ConsentRequest.pending)
                500 "0xa11ce" 1 None Fixtures.receipt
                (Fixtures.request_at ConsentRequest.pending) H)
      as (_ & Hdone & _).
    destruct (Hdone eq_refl eq_refl) as (d' & _ & _ & _ & Hr).
    exact Hr.
Defined.

Section ConsentExpiry.
Import ConsentRequest ConsentRoutes.


Lemma get_route_reads_store st actor id :
  store (get_route st actor id) = st ∧
  ∀ code msg r,
    response (get_route st actor id) = Reply code msg r →
    requests st !! id = Some r.
Proof.
  unfold get_route. destruct (requests st !! id) as [d|]; simpl.
  - destruct (_ && _); simpl; split; try done.
    intros code msg r [= _ _ ->]. done.
  - split; done.
Qed.



End ConsentExpiry.

Section ConsentCreation.
Context `{Emitters.Connections}.
Import ConsentRequest ConsentRoutes.

Lemma create_route_missing st now requesterAddress body :
  fields_present body = false →
  create_route st now requesterAddress body
    = fail st 400 "Missing required fields".
Proof.
  unfold fields_present, create_route.
  destruct (dataOwnerAddress body) as [o|]; [|done].
  destruct (b_dataType body) as [t|]; [|done].
  destruct (b_purpose body) as [p|]; [|done].
  destruct (b_expiresAt body) as [e|]; [|done].
  rewrite bool_decide_eq_true_2 by eauto. rewrite andb_true_r.
  intros ->. reflexivity.
Qed.

Lemma truthy_Some (s : string) : JS.truthy (Some s) = true ↔ s ≠ "".
Proof. simpl. by rewrite negb_true_iff, String.eqb_neq. Qed.

Lemma fields_present_true body :
  fields_present body = true →
  ∃ owner dataType purpose expires,
    dataOwnerAddress body = Some owner ∧ owner ≠ "" ∧
    b_dataType body = Some dataType ∧ dataType ≠ "" ∧
    b_purpose body = Some purpose ∧ purpose ≠ "" ∧
    b_expiresAt body = Some expires.
Proof.
  unfold fields_present. rewrite !andb_true_iff, bool_decide_eq_true.
  intros [[[Ho Ht] Hp] [e He]].
  destruct (dataOwnerAddress body) as [o|]; [|done].
  destruct (b_dataType body) as [t|]; [|done].
  destruct (b_purpose body) as [p|]; [|done].
  apply truthy_Some in Ho, Ht, Hp.
  exists o, t, p, e. done.
Qed.

(** The route once its four fields are present. *)
Lemma create_route_present st now requesterAddress body
    owner dataType purpose expires :
  dataOwnerAddress body = Some owner → owner ≠ "" →
  b_dataType body = Some dataType → dataType ≠ "" →
  b_purpose body = Some purpose → purpose ≠ "" →
  b_expiresAt body = Some expires →
  create_route st now requesterAddress body =
    match User.findByAddress (users st) owner with
    | None => fail st 404 "Data owner not found"
    | Some ownerU =>
        match User.findByAddress (users st) requesterAddress with
        | None => fail st 404 "Requester not found"
        | Some requesterU =>
            let d := new_doc now requesterAddress requesterU ownerU owner
                             dataType purpose (b_scope body) expires in
            let st' := {| requests := <[fresh (dom (requests st))
                                        := pre_save now d]> (requests st);
                          users := users st |} in
            if validate d then
              if JS.truthy (Emitters.connectedUsers !! JS.toLowerCase owner)
              then fail st' 500 "Failed to create consent request"
              else {| store := st'; emitted := [];
                      response :=
                        Reply 201 "Consent request created successfully"
                              (pre_save now d) |}
            else fail st 500 "Failed to create consent request"
        end
    end.
Proof.
  intros Ho Hone Ht Htne Hp Hpne He. unfold create_route.
  rewrite Ho, Ht, Hp, He.
  rewrite (proj2 (truthy_Some owner) Hone),
          (proj2 (truthy_Some dataType) Htne),
          (proj2 (truthy_Some purpose) Hpne).
  simpl negb. cbv iota.
  destruct (User.findByAddress (users st) owner) as [ou|]; [|done].
  destruct (User.findByAddress (users st) requesterAddress) as [ru|]; [|done].
  cbv zeta. destruct (validate _); [|done].
  unfold save, Emitters.emitToUser. by destruct (JS.truthy _).
Qed.


Lemma validate_needs_date now ra ru ou o t p s :
  validate (new_doc now ra ru ou o t p s InvalidDate) = false.
Proof. unfold validate. simpl. by rewrite andb_false_r. Qed.

(** The store after the route: as before, or with one request more
    under a fresh id. *)
Lemma create_route_store st now requesterAddress body :
  store (create_route st now requesterAddress body) = st ∨
  ∃ d, store (create_route st now requesterAddress body)
       = {| requests := <[fresh (dom (requests st)) := d]> (requests st);
            users := users st |}.
Proof.
  destruct (fields_present body) eqn:Hf.
  - destruct (fields_present_true body Hf)
      as (o & t & p & e & Ho & Hone & Ht & Htne & Hp & Hpne & He).
    rewrite (create_route_present st now requesterAddress body o t p e)
      by done.
    destruct (User.findByAddress (users st) o) as [ou|]; [|by left].
    destruct (User.findByAddress (users st) requesterAddress) as [ru|];
      [|by left].
    cbv zeta. destruct (validate _); [|by left].
    right. eexists. by destruct (JS.truthy _).
  - left. by rewrite create_route_missing.
Qed.

(** When the store has changed, every check of the route has passed. *)
Lemma create_route_stored st now requesterAddress body :
  store (create_route st now requesterAddress body) ≠ st →
  ∃ owner dataType purpose t ownerU requesterU,
    dataOwnerAddress body = Some owner ∧ owner ≠ "" ∧
    b_dataType body = Some dataType ∧ dataType ≠ "" ∧
    b_purpose body = Some purpose ∧ purpose ≠ "" ∧
    b_expiresAt body = Some (ValidDate t) ∧
    User.findByAddress (users st) owner = Some ownerU ∧
    User.findByAddress (users st) requesterAddress = Some requesterU ∧
    validate (new_doc now requesterAddress requesterU ownerU owner
                      dataType purpose (b_scope body) (ValidDate t)) = true ∧
    store (create_route st now requesterAddress body)
      = {| requests :=
             <[fresh (dom (requests st))
               := pre_save now
                    (new_doc now requesterAddress requesterU ownerU owner
                             dataType purpose (b_scope body) (ValidDate t))]>
               (requests st);
           users := users st |}.
Proof.
  intros Hchanged.
  destruct (fields_present body) eqn:Hf;
    [|by rewrite create_route_missing in Hchanged].
  destruct (fields_present_true body Hf)
    as (o & t & p & e & Ho & Hone & Ht & Htne & Hp & Hpne & He).
  rewrite (create_route_present st now requesterAddress body o t p e)
    in Hchanged |- * by done.
  destruct (User.findByAddress (users st) o) as [ou|] eqn:Hou; [|done].
  destruct (User.findByAddress (users st) requesterAddress) as [ru|] eqn:Hru;
    [|done].
  cbv zeta in Hchanged |- *.
  destruct (validate _) eqn:Hv; [|done].
  destruct e as [te|]; [|by rewrite validate_needs_date in Hv].
  exists o, t, p, te, ou, ru.
  repeat split; try done. by destruct (JS.truthy _).
Qed.




End ConsentCreation.


Section LedgerRuns.
Import ConsentRequest ConsentRoutes.

Lemma create_route_keeps `{Emitters.Connections}
    st now requesterAddress body id d :
  requests st !! id = Some d →
  requests (store (create_route st now requesterAddress body)) !! id = Some d.
Proof.
  intros Hl.
  destruct (create_route_store st now requesterAddress body) as [->|[d' ->]];
    [done|].
  simpl. rewrite lookup_insert_ne; [done|].
  intros <-. pose proof (is_fresh (dom (requests st))) as Hf.
  apply not_elem_of_dom in Hf. congruence.
Qed.

(** Along any sequence of operations a stored request stays stored and
    its status moves along a path of the lifecycle graph. *)
Lemma runs_follow_lifecycle st st' id d :
  rtc Ledger.step st st' →
  requests st !! id = Some d →
  ∃ d', requests st' !! id = Some d' ∧ rtc edge (status d) (status d').
Proof.
  intros Hrun. revert d.
  induction Hrun as [st|st st1 st' Hstep _ IH]; intros d Hl.
  - exists d. split; [done|]. apply rtc_refl.
  - assert (∃ d1, requests st1 !! id = Some d1 ∧
                  (status d1 = status d ∨ edge (status d) (status d1)))
      as (d1 & Hl1 & Hs1).
    { destruct Hstep as [sockets st now ra body
                        |sockets a st now actor id' reason bc
                        |st actor id'|st now].
      - exists d. split; [by apply create_route_keeps | by left].
      - destruct (decide (id' = id)) as [->|Hne].
        + by apply run_keeps_or_moves.
        + exists d. split; [|by left]. by rewrite run_other.
      - exists d. split; [|by left].
        by rewrite (proj1 (get_route_reads_store st actor id')).
      - simpl. by apply sweep_edge. }
    destruct (IH d1 Hl1) as (d' & Hl' & Hpath).
    exists d'. split; [done|].
    destruct Hs1 as [<-|Hedge]; [done|].
    by eapply rtc_l.
Qed.

End LedgerRuns.

(* ===================================================================== *)
(** * Proof service *)
(* ===================================================================== *)

Section NonceFacts.

Lemma length_toString_hex (buf : list Byte.byte) :
  String.length (NodeCrypto.toString_hex buf) = (2 * length buf)%nat.
Proof. induction buf as [|b buf IH]; simpl; [done|]. rewrite IH. lia. Qed.

Lemma length_randomBytes (entropy : nat → Byte.byte) (n : nat) :
  length (NodeCrypto.randomBytes entropy n) = n.
Proof. unfold NodeCrypto.randomBytes. by rewrite length_map, length_seq. Qed.

(** [crypto.randomBytes(16).toString('hex')] has 32 characters. *)
Lemma nonce_length (entropy : nat → Byte.byte) :
  String.length (NodeCrypto.toString_hex (NodeCrypto.randomBytes entropy 16))
    = 32%nat.
Proof. by rewrite length_toString_hex, length_randomBytes. Qed.

End NonceFacts.

Section ProofService.
Context `{Runtime}.

(** The three conjuncts of [verifyDataAccessProof], as propositions. *)
Lemma verifyDataAccessProof_granted
    (now : Z) (proof : ZKP.AccessProof) (userId dataType accessLevel : string) :
  ZKP.accessGranted
    (ZKP.verifyDataAccessProof now proof userId dataType accessLevel) = true
  ↔
  ZKP.accessHash proof
    = sha256 (ZKP.access_key userId dataType accessLevel) ∧
  now - ZKP.ap_timestamp proof < 3600000 ∧
  String.length (ZKP.ap_nonce proof) = 32%nat.
Proof.
  unfold ZKP.verifyDataAccessProof. simpl.
  rewrite !andb_true_iff, String.eqb_eq, Z.ltb_lt, Nat.eqb_eq.
  split; [intros [[Hh Ht] Hn] | intros (Hh & Ht & Hn)];
    repeat split; try done; lia.
Qed.

(** C6. [verifyDataAccessProof] grants access exactly when the stored
    [accessHash] is the SHA-256 digest of the string
    userId-dataType-accessLevel, the proof's timestamp is less than one
    hour (3 600 000 ms) behind the current time, and the nonce has exactly
    32 characters. *)
Theorem data_access_proof_granted_iff
    (now : Z) (proof : ZKP.AccessProof) (userId dataType accessLevel : string) :
  ZKP.accessGranted
    (ZKP.verifyDataAccessProof now proof userId dataType accessLevel) = true
  ↔
  ZKP.accessHash proof
    = sha256 (userId ++ "-" ++ dataType ++ "-" ++ accessLevel) ∧
  now - ZKP.ap_timestamp proof < 3600000 ∧
  String.length (ZKP.ap_nonce proof) = 32%nat.
Proof.
  rewrite verifyDataAccessProof_granted.
  unfold ZKP.access_key. reflexivity.
Qed.

(** The verification's [isValid] field always equals [accessGranted]. *)
Lemma data_access_isValid_is_granted now proof userId dataType accessLevel :
  ZKP.av_isValid
    (ZKP.verifyDataAccessProof now proof userId dataType accessLevel)
  = ZKP.accessGranted
      (ZKP.verifyDataAccessProof now proof userId dataType accessLevel).
Proof. reflexivity. Qed.

(** C7. The [isValid] result of [verifyProof] does not depend on the
    verification data: for any two JSON values it is the same, because it
    is true exactly when the proof's stored flag is true, its timestamp is
    less than 24 hours (86 400 000 ms) behind the current time and its
    nonce has 32 characters; the digest of the verification data is
    computed and compared with nothing. *)
Theorem verifyProof_ignores_verification_data
    (now : Z) (proof : ZKP.Proof) (d1 d2 : Json) :
  ZKP.v_isValid (ZKP.verifyProof now proof d1)
    = ZKP.v_isValid (ZKP.verifyProof now proof d2) ∧
  (ZKP.v_isValid (ZKP.verifyProof now proof d1) = true ↔
     ZKP.isValid proof = true ∧
     now - ZKP.timestamp proof < 86400000 ∧
     String.length (ZKP.nonce proof) = 32%nat).
Proof.
  split; [reflexivity|].
  unfold ZKP.verifyProof. simpl.
  rewrite !andb_true_iff, Z.ltb_lt, Nat.eqb_eq.
  split; [intros [[Hf Ht] Hn] | intros (Hf & Ht & Hn)];
    repeat split; try done; lia.
Qed.

(** The validity flag of an age proof is the plain comparison made when
    the proof is generated; verified within 24 hours, the proof is valid
    exactly when the age reaches the minimum. *)
Lemma fresh_age_proof_valid (t1 t2 : Z) (entropy : nat → Byte.byte)
    (actualAge minimumAge : Z) (d : Json) :
  t2 - t1 < 86400000 →
  (ZKP.v_isValid
     (ZKP.verifyProof t2 (ZKP.generateAgeProof t1 entropy actualAge minimumAge)
                      d) = true
   ↔ minimumAge ≤ actualAge).
Proof.
  intros Hfresh. unfold ZKP.verifyProof, ZKP.generateAgeProof.
  cbn [ZKP.v_isValid ZKP.isValid ZKP.timestamp ZKP.nonce].
  rewrite nonce_length, !andb_true_iff, Z.leb_le, Z.ltb_lt, Nat.eqb_eq.
  intuition lia.
Qed.

End ProofService.

Section Merkle.
Context `{Runtime}.

Lemma pair_level_length (l : list string) :
  length (ZKP.pair_level l) = Nat.div2 (S (length l)).
Proof.
  revert l. fix IH 1. intros [|a [|b l]]; simpl; try reflexivity.
  f_equal. apply IH.
Qed.

(** [ceil(log2 n)] drops by one when [n >= 2] is replaced by
    [ceil(n / 2)]. *)
Lemma log2_up_halve (n : Z) :
  2 ≤ n → Z.log2_up n = Z.succ (Z.log2_up ((n + 1) / 2)).
Proof.
  intros Hn. rewrite (Z.log2_up_eqn n) by lia. f_equal.
  destruct (decide (n = 2)) as [->|Hne]; [reflexivity|].
  assert (2 ≤ (n + 1) / 2) by (apply Z.div_le_lower_bound; lia).
  rewrite (Z.log2_up_eqn ((n + 1) / 2)) by lia.
  replace (Z.pred ((n + 1) / 2)) with (Z.shiftr (Z.pred n) 1).
  - rewrite Z.log2_shiftr by lia.
    assert (1 ≤ Z.log2 (Z.pred n)) by (apply Z.log2_le_pow2; simpl; lia).
    lia.
  - rewrite Z.shiftr_div_pow2 by lia. change (2 ^ 1) with 2.
    replace (n + 1) with (Z.pred n + 1 * 2) by lia.
    rewrite Z.div_add by lia. lia.
Qed.

Lemma ceil_log2_pair_level (l : list string) :
  (2 ≤ length l)%nat →
  ZKP.ceil_log2 (length l)
    = Z.succ (ZKP.ceil_log2 (length (ZKP.pair_level l))).
Proof.
  intros Hl. unfold ZKP.ceil_log2.
  rewrite pair_level_length, Nat.div2_div, Nat2Z.inj_div.
  rewrite log2_up_halve by lia. do 2 f_equal. lia.
Qed.

(** With as many frames as leaves, the recursion on a non-empty list
    returns, after [ceil(log2 n)] levels. *)
Lemma buildMerkleTree_returns (fuel : nat) (l : list string) :
  l ≠ [] → (length l ≤ fuel)%nat →
  (∃ r, ZKP.buildMerkleTree fuel l = Some r) ∧
  ZKP.levels fuel l = Some (Z.to_nat (ZKP.ceil_log2 (length l))).
Proof.
  revert l. induction fuel as [|fuel IH]; intros l Hne Hlen.
  - destruct l as [|a [|b l]]; simpl in *; try done; try lia;
      split; eauto.
  - destruct l as [|a [|b l]]; [done| split; simpl; eauto |].
    assert (Hm : (length (ZKP.pair_level (a :: b :: l)) ≤ fuel)%nat).
    { rewrite pair_level_length, Nat.div2_div. simpl length in *.
      apply Nat.lt_succ_r, Nat.Div0.div_lt_upper_bound. lia. }
    assert (Hne' : ZKP.pair_level (a :: b :: l) ≠ []) by done.
    destruct (IH _ Hne' Hm) as [[r Hr] Hlv].
    split.
    + exists r. exact Hr.
    + change (ZKP.levels (S fuel) (a :: b :: l))
        with (S <$> ZKP.levels fuel (ZKP.pair_level (a :: b :: l))).
      rewrite Hlv. simpl fmap. f_equal.
      rewrite (ceil_log2_pair_level (a :: b :: l)) by (simpl; lia).
      rewrite Z2Nat.inj_succ; [done|]. apply Z.log2_up_nonneg.
Qed.

(** One pass hashes the leaves in pairs, the last leaf of an odd level
    with itself. *)
Lemma pair_level_lookup (level : list string) (i : nat) (l : string) :
  level !! (2 * i)%nat = Some l →
  ZKP.pair_level level !! i
    = Some (sha256 (l ++ default l (level !! (2 * i + 1)%nat))).
Proof.
  revert level i. fix IH 1. intros [|a [|b rest]] i Hl.
  - done.
  - destruct i as [|i]; [by injection Hl as ->|].
    replace (2 * S i)%nat with (S (S (2 * i))) in Hl by lia. done.
  - destruct i as [|i]; [by injection Hl as ->|].
    replace (2 * S i)%nat with (S (S (2 * i))) in Hl by lia.
    replace (2 * S i + 1)%nat with (S (S (2 * i + 1))) by lia.
    simpl in Hl |- *. by apply IH.
Qed.

(** The root is what is left after as many passes as the recursion
    makes. *)
Lemma buildMerkleTree_passes (fuel : nat) (l : list string) (r : string)
    (k : nat) :
  ZKP.buildMerkleTree fuel l = Some r →
  ZKP.levels fuel l = Some k →
  Nat.iter k ZKP.pair_level l = [r].
Proof.
  revert l k. induction fuel as [|fuel IH]; intros l k Hb Hk.
  - destruct l as [|a [|b l]]; simpl in *; try done.
    injection Hb as ->. by injection Hk as <-.
  - destruct l as [|a [|b l]].
    + simpl in Hb, Hk.
      destruct (ZKP.levels fuel []) as [k'|] eqn:Hk'; [|done].
      injection Hk as <-. rewrite Nat.iter_succ_r. by apply IH.
    + simpl in *. injection Hb as ->. by injection Hk as <-.
    + change (ZKP.buildMerkleTree (S fuel) (a :: b :: l))
        with (ZKP.buildMerkleTree fuel (ZKP.pair_level (a :: b :: l))) in Hb.
      change (ZKP.levels (S fuel) (a :: b :: l))
        with (S <$> ZKP.levels fuel (ZKP.pair_level (a :: b :: l))) in Hk.
      destruct (ZKP.levels fuel (ZKP.pair_level (a :: b :: l))) as [k'|]
        eqn:Hk'; [|done].
      injection Hk as <-. rewrite Nat.iter_succ_r. by apply IH.
Qed.

(** C8. [generateMerkleTree] hashes pairwise and bottom-up, pairing the
    last leaf of an odd level with itself; the hash of an item is
    SHA-256 of its JSON text and + is string concatenation.  For a
    one-item list the root is the item's hash; for [a; b; c] the root is
    hash(hash(hash a + hash b) + hash(hash c + hash c)).  For every
    non-empty list of [n] items the call returns a tree over the [n]
    item hashes whose reported height [h] is ceil(log2 n), the least [h]
    with [n <= 2^h], and whose root is the one hash left after [h] passes
    over the leaves, which is also the number of passes the recursion
    makes.  One pass maps a level of [m] hashes to ceil(m / 2) hashes:
    the hash at position [i] is the hash of the concatenation of the
    hashes at positions [2i] and [2i + 1], and of the hash at [2i] with
    itself when [2i] is the last position. *)
Theorem merkle_root_and_height (a b c x : Json) (rest : list Json) :
  let hash d := sha256 (JSON_stringify d) in
  ZKP.generateMerkleTree [x]
    = Some {| ZKP.root := hash x;
              ZKP.leaves := [hash x];
              ZKP.treeHeight := 0 |} ∧
  ZKP.generateMerkleTree [a; b; c]
    = Some {| ZKP.root :=
                sha256 (sha256 (hash a ++ hash b) ++
                        sha256 (hash c ++ hash c));
              ZKP.leaves := [hash a; hash b; hash c];
              ZKP.treeHeight := 2 |} ∧
  (∃ t, ZKP.generateMerkleTree (x :: rest) = Some t ∧
        ZKP.leaves t = map hash (x :: rest) ∧
        let n := Z.of_nat (length (x :: rest)) in
        let h := ZKP.treeHeight t in
        0 ≤ h ∧ n ≤ 2 ^ h ∧ (∀ k, 0 ≤ k → n ≤ 2 ^ k → h ≤ k) ∧
        Nat.iter (Z.to_nat h) ZKP.pair_level (ZKP.leaves t) = [ZKP.root t] ∧
        ZKP.levels (length (x :: rest)) (ZKP.leaves t)
          = Some (Z.to_nat h)) ∧
  (∀ level : list string,
     length (ZKP.pair_level level) = Nat.div2 (S (length level)) ∧
     ∀ i l, level !! (2 * i)%nat = Some l →
       ZKP.pair_level level !! i
         = Some (sha256 (l ++ default l (level !! (2 * i + 1)%nat)))).
Proof.
  intros hash. split; [reflexivity|]. split; [reflexivity|].
  split.
  2: { intros level. split; [apply pair_level_length|].
       apply pair_level_lookup. }
  unfold ZKP.generateMerkleTree.
  change (map ZKP.leaf_hash (x :: rest)) with (map hash (x :: rest)).
  set (l := map hash (x :: rest)).
  assert (Hne : l ≠ []) by done.
  destruct (buildMerkleTree_returns (length l) l Hne (le_n _)) as [[r Hr] Hl].
  rewrite Hr. eexists; split; [reflexivity|].
  cbn [ZKP.leaves ZKP.treeHeight ZKP.root]. split; [reflexivity|].
  assert (Hlen : length l = length (x :: rest)) by apply length_map.
  rewrite <- Hlen. unfold ZKP.ceil_log2.
  assert (Hpos : 0 < Z.of_nat (length l)) by (rewrite Hlen; simpl; lia).
  split; [apply Z.log2_up_nonneg|]. split; [|split; [|split]].
  - destruct (decide (Z.of_nat (length l) = 1)) as [Hn1|Hn1].
    + rewrite Hn1. by vm_compute.
    + apply Z.log2_up_spec. lia.
  - intros k Hk Hle. by apply Z.log2_up_le_pow2.
  - by apply (buildMerkleTree_passes (length l)).
  - exact Hl.
Qed.

End Merkle.

(* ===================================================================== *)
(** * Security middleware: data access *)
(* ===================================================================== *)

Section DataAccess.
Context `{Runtime}.
Import SecurityMiddleware.

(** A proof generated at [t1] and verified at [t2] for the same user,
    data type and access level is accepted exactly when the two clock
    readings are less than an hour apart. *)
Lemma fresh_access_proof_granted (t1 t2 : Z) (entropy : nat → Byte.byte)
    (userId dataType accessLevel : string) :
  ZKP.accessGranted
    (ZKP.verifyDataAccessProof t2
       (ZKP.generateDataAccessProof t1 entropy userId dataType accessLevel)
       userId dataType accessLevel) = true
  ↔ t2 - t1 < 3600000.
Proof.
  rewrite verifyDataAccessProof_granted.
  unfold ZKP.generateDataAccessProof.
  cbn [ZKP.accessHash ZKP.ap_timestamp ZKP.ap_nonce].
  rewrite nonce_length. intuition.
Qed.

(** C4. In [verifyDataAccess], when the data CID, the user address and the
    data type are present and the data exists in storage, the middleware
    never answers 403: the proof it verifies is the one it has just
    generated from the same user address, data type and ['read'] level
    (its nonce has 32 characters, its hash is the expected one, and the
    two clock readings of one call are less than an hour apart), so it
    calls [next()] with [accessGranted] set for every such requester. *)
Theorem data_access_denial_unreachable
    (dataExists : string → bool) (t_generate t_verify : Z)
    (entropy : nat → Byte.byte) (body : DataAccessBody)
    (cid user type : string)
    (Hcid : dataCID body = Some cid) (Hcid_truthy : cid ≠ "")
    (Huser : userAddress body = Some user) (Huser_truthy : user ≠ "")
    (Htype : dataType body = Some type) (Htype_truthy : type ≠ "")
    (Hexists : dataExists cid = true)
    (Hclock : t_verify - t_generate < 3600000) :
  verifyDataAccess dataExists t_generate t_verify entropy body
    = Next {| da_dataCID := cid;
              da_metadataCID := metadataCID body;
              da_dataType := type;
              da_userAddress := user;
              da_accessGranted := true;
              da_proof := ZKP.generateDataAccessProof
                            t_generate entropy user type "read" |} ∧
  (∀ msg, verifyDataAccess dataExists t_generate t_verify entropy body
            ≠ Respond 403 msg).
Proof.
  assert (Hgranted := proj2 (fresh_access_proof_granted
                               t_generate t_verify entropy user type "read")
                            Hclock).
  assert (Heq : verifyDataAccess dataExists t_generate t_verify entropy body
                = Next {| da_dataCID := cid;
                          da_metadataCID := metadataCID body;
                          da_dataType := type;
                          da_userAddress := user;
                          da_accessGranted := true;
                          da_proof := ZKP.generateDataAccessProof
                                        t_generate entropy user type "read" |}).
  { unfold verifyDataAccess. rewrite Hcid, Huser, Htype. unfold JS.truthy.
    apply String.eqb_neq in Hcid_truthy, Huser_truthy, Htype_truthy.
    rewrite Hcid_truthy, Huser_truthy, Htype_truthy, Hexists.
    cbn [negb andb]. cbv zeta. rewrite Hgranted. reflexivity. }
  split; [exact Heq|]. intros msg. rewrite Heq. discriminate.
Qed.

End DataAccess.

Lemma data_access_denial_witness :
  SecurityMiddleware.dataCID Fixtures.access_body = Some "QmData" ∧
  SecurityMiddleware.userAddress Fixtures.access_body = Some "0xb0b" ∧
  SecurityMiddleware.dataType Fixtures.access_body = Some "medical" ∧
  1005 - 1000 < 3600000 ∧
  @SecurityMiddleware.verifyDataAccess Fixtures.example_runtime
    (λ _, true) 1000 1005 (λ _, Byte.x2a) Fixtures.access_body
  = SecurityMiddleware.Next
      {| SecurityMiddleware.da_dataCID := "QmData";
         SecurityMiddleware.da_metadataCID := None;
         SecurityMiddleware.da_dataType := "medical";
         SecurityMiddleware.da_userAddress := "0xb0b";
         SecurityMiddleware.da_accessGranted := true;
         SecurityMiddleware.da_proof :=
           @ZKP.generateDataAccessProof Fixtures.example_runtime
             1000 (λ _, Byte.x2a) "0xb0b" "medical" "read" |}.
Proof.
  do 3 (split; [reflexivity|]). split; [lia|].
  apply (@data_access_denial_unreachable Fixtures.example_runtime
           (λ _, true) 1000 1005 (λ _, Byte.x2a) Fixtures.access_body
           "QmData" "0xb0b" "medical");
    try reflexivity; try discriminate; lia.
Defined.

(* ===================================================================== *)
(** * Credential service *)
(* ===================================================================== *)

Section CredentialService.
Context `{SSI.Env}.
Import SSI.

Lemma did_rejected_false (d : option DidData) :
  did_rejected d = false ↔ ∃ data, d = Some data ∧ isActive data = true.
Proof.
  destruct d as [data|]; simpl.
  - rewrite negb_false_iff. split; [eauto|]. intros (? & [= <-] & ?). done.
  - split; [done|]. intros (? & [=] & _).
Qed.

(** Every DID document [resolveDID] returns is active. *)
Lemma resolveDID_active (d : option string) (data : DidData) :
  resolveDID d = Some data → isActive data = true.
Proof.
  unfold resolveDID. destruct d as [d|]; [|done].
  destruct (registry_resolveDID d) as [[[o t] h]|]; [|done].
  destruct (o =? AddressZero)%string; [done|]. by intros [= <-].
Qed.

Lemma did_accepted_iff (d : option string) :
  did_rejected (resolveDID d) = false ↔ is_Some (resolveDID d).
Proof.
  rewrite did_rejected_false. split.
  - intros (data & -> & _). eauto.
  - intros [data Hd]. exists data. eauto using resolveDID_active.
Qed.

(** When [verifyCredential] accepts a credential token. *)
Lemma verifyCredential_valid_iff (now : Z) (credentialJWT : string) :
  cv_isValid (verifyCredential now credentialJWT) = true ↔
  ∃ decoded,
    jwt_verify now credentialJWT = Some decoded ∧
    exp_passed now (exp decoded) = false ∧
    is_Some (resolveDID (iss decoded)) ∧
    is_Some (resolveDID (sub decoded)).
Proof.
  unfold verifyCredential.
  destruct (jwt_verify now credentialJWT) as [decoded|]; simpl.
  2: { split; [done|]. intros (? & [=] & _). }
  destruct (exp_passed now (exp decoded)) eqn:He; simpl.
  { split; [done|]. intros (? & [= <-] & ? & _). congruence. }
  destruct (did_rejected (resolveDID (iss decoded))) eqn:Hi; simpl.
  { split; [done|].
    intros (? & [= <-] & _ & Hx%did_accepted_iff & _). congruence. }
  destruct (did_rejected (resolveDID (sub decoded))) eqn:Hs; simpl.
  { split; [done|].
    intros (? & [= <-] & _ & _ & Hx%did_accepted_iff). congruence. }
  split; [|done]. intros _. exists decoded.
  repeat split; try done; by apply did_accepted_iff.
Qed.

(** When [verifyPresentation] accepts a presentation token. *)
Lemma verifyPresentation_valid_iff (now : Z) (presentationJWT ch : string) :
  pv_isValid (verifyPresentation now presentationJWT ch) = true ↔
  ∃ decoded p,
    jwt_verify now presentationJWT = Some decoded ∧
    exp_passed now (exp decoded) = false ∧
    nonce decoded = Some ch ∧
    is_Some (resolveDID (iss decoded)) ∧
    vp decoded = Some p ∧
    Forall (λ c, cv_isValid (verifyCredential now c) = true)
           (verifiableCredential p).
Proof.
  unfold verifyPresentation.
  destruct (jwt_verify now presentationJWT) as [decoded|]; simpl.
  2: { split; [done|]. intros (? & ? & [=] & _). }
  destruct (exp_passed now (exp decoded)) eqn:He; simpl.
  { split; [done|]. intros (? & ? & [= <-] & ? & _). congruence. }
  case_bool_decide as Hn; simpl.
  2: { split; [done|]. intros (? & ? & [= <-] & _ & ? & _). done. }
  destruct (did_rejected (resolveDID (iss decoded))) eqn:Hi; simpl.
  { split; [done|].
    intros (? & ? & [= <-] & _ & _ & Hx%did_accepted_iff & _). congruence. }
  destruct (vp decoded) as [p|] eqn:Hvp; simpl.
  2: { split; [done|]. intros (? & ? & [= <-] & _ & _ & _ & Hx & _).
       congruence. }
  rewrite forallb_forall. split.
  - intros Hall. exists decoded, p. repeat split; try done.
    + by apply did_accepted_iff.
    + apply Forall_forall. intros c Hc.
      apply (Hall (verifyCredential now c)).
      apply in_map, list_elem_of_In, Hc.
  - intros (? & p' & [= <-] & _ & _ & _ & Hx & Hall) v Hv.
    assert (p' = p) as -> by congruence.
    rewrite Forall_forall in Hall.
    apply in_map_iff in Hv as (c & <- & Hc).
    apply Hall, list_elem_of_In, Hc.
Qed.

End CredentialService.

Section Revocation.
Import SSI Server.

(** C2, as the specification words it, fails.  In the example world the
    holder's stored credential [urn:uuid:1] is revoked through the
    revocation route, and the service's own [revokeCredential] has issued
    a revocation record for it; the presentation that wraps the
    credential (not expired at time 1 000 000 000 ms, challenge equal to
    its nonce) is still verified with [isValid = true]. *)
Lemma revoked_credential_still_verifies :
  let w' := (delete_credential Fixtures.world (Some "0xb0b") "urn:uuid:1").1 in
  let revocation :=
    @revokeCredential 1000000000 "urn:uuid:1" "did:ethr:0xc11n1c" None in
  (∃ u c, users w' !! "0xb0b" = Some u ∧
          User.ssiCredentials u = [c] ∧
          User.credentialHash c = "urn:uuid:1" ∧
          User.isRevoked c = true) ∧
  rev_credentialId revocation = "urn:uuid:1" ∧
  (∃ decoded p,
     @jwt_verify (ssi w') 1000000000 "presentation.jwt" = Some decoded ∧
     exp_passed 1000000000 (exp decoded) = false ∧
     nonce decoded = Some "challenge-1" ∧
     vp decoded = Some p ∧
     verifiableCredential p = ["credential.jwt"] ∧
     (vc_id <$> @jwt_verify (ssi w') 1000000000 "credential.jwt")
       = Some (Some "urn:uuid:1")) ∧
  pv_isValid (@verifyPresentation (ssi w') 1000000000
                                  "presentation.jwt" "challenge-1") = true.
Proof.
  repeat split.
  - eexists _, _. repeat split.
  - eexists _, _. repeat split.
Qed.

(** C2, amended. [verifyPresentation] looks at no revocation state.  It
    returns [isValid = true] exactly when the presentation token
    verifies, is not expired, its nonce equals the supplied challenge, the
    holder DID resolves, and every wrapped credential token verifies, is
    not expired and has resolvable issuer and subject DIDs.  Revoking a
    credential through the revocation route therefore leaves the answer
    to every presentation verification unchanged. *)
Theorem presentation_verification_ignores_revocation
    (w : World) (address : option string) (credentialHash : string)
    (now : Z) (body : SecurityMiddleware.SSIBody)
    (presentationJWT ch : string) :
  post_verify_presentation
    (delete_credential w address credentialHash).1 now body
  = post_verify_presentation w now body ∧
  (pv_isValid (@verifyPresentation (ssi w) now presentationJWT ch) = true ↔
   ∃ decoded p,
     @jwt_verify (ssi w) now presentationJWT = Some decoded ∧
     exp_passed now (exp decoded) = false ∧
     nonce decoded = Some ch ∧
     is_Some (@resolveDID (ssi w) (iss decoded)) ∧
     vp decoded = Some p ∧
     Forall
       (λ c, ∃ credential,
          @jwt_verify (ssi w) now c = Some credential ∧
          exp_passed now (exp credential) = false ∧
          is_Some (@resolveDID (ssi w) (iss credential)) ∧
          is_Some (@resolveDID (ssi w) (sub credential)))
       (verifiableCredential p)).
Proof.
  split.
  - unfold post_verify_presentation, delete_credential.
    destruct (UserRoutes.revoke_credential_route _ _ _). reflexivity.
  - rewrite verifyPresentation_valid_iff.
    split; intros (decoded & p & ? & ? & ? & ? & ? & Hall);
      exists decoded, p; repeat split; try done;
      eapply Forall_impl; try exact Hall;
      intros c; cbv beta; by rewrite verifyCredential_valid_iff.
Qed.

End Revocation.

(* ===================================================================== *)
(** * Anomaly monitor: score and risk level *)
(* ===================================================================== *)

Section AnomalyScore.
Import AIAnalytics AICoPilot.

Lemma severity_weight_pos s : 0 < severity_weight s.
Proof. destruct s; simpl; lia. Qed.

Lemma severity_weight_mono s1 s2 :
  severity_le s1 s2 → severity_weight s1 ≤ severity_weight s2.
Proof. unfold severity_le. destruct s1, s2; simpl; lia. Qed.

Lemma add_weights_sum acc anomalies :
  add_weights acc anomalies = acc + weight_sum anomalies.
Proof.
  revert acc. induction anomalies as [|a l IH]; intros acc; simpl.
  - unfold add_weights. simpl. lia.
  - unfold add_weights in *. simpl. rewrite IH. lia.
Qed.

Lemma weight_sum_nonneg anomalies : 0 ≤ weight_sum anomalies.
Proof.
  induction anomalies as [|a l IH]; simpl; [lia|].
  pose proof (severity_weight_pos (severity a)). lia.
Qed.

Lemma weight_sum_mono l1 l2 :
  alerts_le l1 l2 → weight_sum l1 ≤ weight_sum l2.
Proof.
  induction 1 as [|a l1 l2 _ IH|a1 a2 l1 l2 Hs _ IH]; simpl.
  - lia.
  - pose proof (severity_weight_pos (severity a)). lia.
  - apply severity_weight_mono in Hs. lia.
Qed.

Lemma pattern_bonus_nonneg p : 0 ≤ pattern_bonus p.
Proof.
  unfold pattern_bonus.
  destruct (10 <? frequency p), (Qgtb (dataVolume p) (2000 # 1)); lia.
Qed.

Lemma calculateAnomalyScore_eq anomalies u :
  calculateAnomalyScore anomalies u
  = Z.min (weight_sum anomalies + pattern_bonus (accessPattern u)) 100.
Proof.
  unfold calculateAnomalyScore, pattern_bonus.
  rewrite add_weights_sum.
  destruct (10 <? frequency (accessPattern u)),
           (Qgtb (dataVolume (accessPattern u)) (2000 # 1)); f_equal; lia.
Qed.

Lemma Qgtb_spec (x y : Q) : Qgtb x y = true ↔ (y < x)%Q.
Proof.
  unfold Qgtb. rewrite negb_true_iff, <- not_true_iff_false, Qle_bool_iff.
  split; [apply Qnot_le_lt | apply Qlt_not_le].
Qed.

(** C9. The anomaly score is the sum of the alerts' severity weights
    (critical 30, error 20, warning 10, info 5) plus 15 when the access
    frequency exceeds 10 and 20 when the data volume exceeds 2000, capped
    at 100.  It lies in [0, 100], and it does not decrease when alerts are
    added or severities raised.  The risk level stored with a score is
    low below 50, medium below 75, high below 90 and critical from 90
    on. *)
Theorem anomaly_score_sum_capped_monotone
    (anomalies anomalies' : list Alert) (u : doc)
    (Hmore : alerts_le anomalies anomalies') :
  let score := calculateAnomalyScore anomalies u in
  score
    = Z.min (foldr (λ a s, severity_weight (severity a) + s) 0 anomalies
             + (if 10 <? frequency (accessPattern u) then 15 else 0)
             + (if Qgtb (dataVolume (accessPattern u)) (2000 # 1)
                then 20 else 0))
            100 ∧
  (severity_weight critical = 30 ∧ severity_weight error = 20 ∧
   severity_weight warning = 10 ∧ severity_weight info = 5) ∧
  (Qgtb (dataVolume (accessPattern u)) (2000 # 1) = true
     ↔ (2000 # 1 < dataVolume (accessPattern u))%Q) ∧
  0 ≤ score ≤ 100 ∧
  score ≤ calculateAnomalyScore anomalies' u ∧
  anomalyScore (updateAnomalyScore score u) = score ∧
  riskLevel (updateAnomalyScore score u)
    = (if score <? 50 then low
       else if score <? 75 then medium
       else if score <? 90 then high
       else risk_critical).
Proof.
  intros score. subst score.
  pose proof (weight_sum_nonneg anomalies) as Hw.
  pose proof (pattern_bonus_nonneg (accessPattern u)) as Hb.
  pose proof (weight_sum_mono _ _ Hmore) as Hm.
  rewrite !calculateAnomalyScore_eq.
  repeat split.
  - unfold pattern_bonus, weight_sum. f_equal. lia.
  - apply Qgtb_spec.
  - apply Qgtb_spec.
  - lia.
  - lia.
  - lia.
  - simpl. unfold risk_of.
    set (s := Z.min _ 100).
    destruct (Z.leb_spec 90 s), (Z.leb_spec 75 s), (Z.leb_spec 50 s),
             (Z.ltb_spec s 50), (Z.ltb_spec s 75), (Z.ltb_spec s 90);
      try reflexivity; lia.
Qed.

End AnomalyScore.

Lemma anomaly_score_witness :
  AICoPilot.alerts_le
    [Fixtures.alert_of AIAnalytics.warning]
    [Fixtures.alert_of AIAnalytics.error;
     Fixtures.alert_of AIAnalytics.warning] ∧
  AICoPilot.calculateAnomalyScore
    [Fixtures.alert_of AIAnalytics.warning] Fixtures.profile
  ≤ AICoPilot.calculateAnomalyScore
      [Fixtures.alert_of AIAnalytics.error;
       Fixtures.alert_of AIAnalytics.warning] Fixtures.profile.
Proof.
  assert (H : AICoPilot.alerts_le
                [Fixtures.alert_of AIAnalytics.warning]
                [Fixtures.alert_of AIAnalytics.error;
                 Fixtures.alert_of AIAnalytics.warning]).
  { apply AICoPilot.alerts_le_add, AICoPilot.alerts_le_raise;
      [apply le_n | apply AICoPilot.alerts_le_nil]. }
  split; [exact H|].
  apply (anomaly_score_sum_capped_monotone _ _ Fixtures.profile H).
Defined.

(* ===================================================================== *)
(** * Further properties: consent ledger *)
(* ===================================================================== *)

Section LedgerMore.
Context `{Emitters.Connections}.
Import ConsentRequest ConsentRoutes Notions.

Lemma terminal_no_edge s s' : terminal s → ¬ edge s s'.
Proof. intros [->|[->| ->]] He; inversion He. Qed.

Lemma terminal_path s s' : terminal s → rtc edge s s' → s' = s.
Proof.
  intros Ht Hp. destruct (rtc_inv _ _ Hp) as [->|(y & He & _)]; [done|].
  by apply terminal_no_edge in He.
Qed.

Lemma approved_path s' : rtc edge approved s' → s' = approved ∨ s' = revoked.
Proof.
  intros Hp. destruct (rtc_inv _ _ Hp) as [<-|(y & He & Hp')]; [by left|].
  inversion He; subst. right. apply terminal_path; [|done].
  right; by right.
Qed.

(** X1. Along every sequence of route calls and clean-up sweeps a stored
    consent request stays stored and its status follows a path of the
    lifecycle graph.  In particular a denied, expired or revoked request
    keeps its status for ever, and an approved request can only stay
    approved or become revoked. *)
Theorem ledger_statuses_along_runs
    (st st' : Store) (id : nat) (d : doc)
    (Hrun : rtc Ledger.step st st')
    (Hstored : requests st !! id = Some d) :
  ∃ d', requests st' !! id = Some d' ∧
        rtc edge (status d) (status d') ∧
        (terminal (status d) → status d' = status d) ∧
        (status d = approved → status d' = approved ∨ status d' = revoked).
Proof.
  destruct (runs_follow_lifecycle st st' id d Hrun Hstored)
    as (d' & Hl & Hpath).
  exists d'. repeat split; try done.
  - intros Ht. by apply terminal_path.
  - intros Ha. rewrite Ha in Hpath. by apply approved_path.
Qed.

Lemma filter_none {A} (P : A → Prop) `{!∀ x, Decision (P x)} (l : list A) :
  (∀ x, x ∈ l → ¬ P x) → filter P l = [].
Proof.
  induction l as [|x l IH]; intros Hall; [done|].
  rewrite filter_cons_False by (apply Hall; left).
  apply IH. intros y Hy. apply Hall. by right.
Qed.

Lemma expired_query_set_expired now d :
  expired_query now (set_status expired d) = false.
Proof. reflexivity. Qed.

(** X2. After the clean-up sweep at time [now] no request is left that
    is pending with an expiry before [now]: the query of the sweep finds
    nothing, and a second sweep at the same time changes nothing.  The
    sweep changes only the status, and only of the requests its query
    selected. *)
Theorem sweep_leaves_nothing_expired (now : Z) (coll : gmap nat doc) :
  findExpiredRequests now (Cleanup.sweep now coll) = [] ∧
  Cleanup.sweep now (Cleanup.sweep now coll) = Cleanup.sweep now coll ∧
  (∀ id d, coll !! id = Some d →
     Cleanup.sweep now coll !! id
       = Some (if expired_query now d then set_status expired d else d)) ∧
  (∀ id, coll !! id = None → Cleanup.sweep now coll !! id = None).
Proof.
  assert (Hnone : findExpiredRequests now (Cleanup.sweep now coll) = []).
  { unfold findExpiredRequests. apply filter_none.
    intros [id d'] Hin. apply elem_of_map_to_list in Hin.
    rewrite sweep_lookup in Hin. simpl.
    destruct (coll !! id) as [d|] eqn:Hl; [|done].
    injection Hin as <-.
    destruct (expired_query now d) eqn:Hq.
    - rewrite expired_query_set_expired. done.
    - rewrite Hq. done. }
  repeat split.
  - exact Hnone.
  - unfold Cleanup.sweep at 1. by rewrite Hnone.
  - intros id d Hl. by rewrite sweep_lookup, Hl.
  - intros id Hl. by rewrite sweep_lookup, Hl.
Qed.

(** X3. Once the sweep has run at a time after a pending request's
    expiry, the owner's approve, deny and revoke requests for it are all
    answered with the 400 invalid-state error and change nothing. *)
Theorem swept_request_cannot_be_decided
    (a : Action) (st : Store) (now now' : Z) (id : nat) (d : doc) (e : Z)
    (reason : option string) (bc : BlockchainData)
    (Hstored : requests st !! id = Some d)
    (Hexpiry : expiresAt d = Some e)
    (Hpast : e < now)
    (Hpending : status d = pending) :
  let swept := {| requests := Cleanup.sweep now (requests st);
                  users := users st |} in
  let out := run a swept now' (address (dataOwner d)) id reason bc in
  response out = Error 400 (invalid_state_message a) ∧
  store out = swept ∧
  emitted out = [].
Proof.
  intros swept out. subst out.
  assert (Hl : requests swept !! id = Some (set_status expired d)).
  { simpl. rewrite sweep_lookup, Hstored. simpl. unfold expired_query.
    rewrite Hexpiry, (bool_decide_eq_true_2 _ Hpending).
    by rewrite (proj2 (Z.ltb_lt e now) Hpast). }
  rewrite (run_invalid_state a swept now' _ id reason bc
             (set_status expired d) Hl);
    [done | done | destruct a; discriminate].
Qed.


(** X5. The two expiry virtuals agree: [timeUntilExpiry] is never
    negative, it is zero for every expired request, and for a request
    that is not expired it is exactly the time left until [expiresAt];
    it is [null] only when the request has no expiry. *)
Theorem timeUntilExpiry_agrees_with_isExpired (now : Z) (d : doc) :
  (∀ t, ConsentVirtuals.timeUntilExpiry now d = Some t → 0 ≤ t) ∧
  (isExpired now d = true → ConsentVirtuals.timeUntilExpiry now d = Some 0) ∧
  (∀ e, expiresAt d = Some e → isExpired now d = false →
        ConsentVirtuals.timeUntilExpiry now d = Some (e - now)) ∧
  (ConsentVirtuals.timeUntilExpiry now d = None ↔ expiresAt d = None).
Proof.
  unfold ConsentVirtuals.timeUntilExpiry, isExpired.
  destruct (expiresAt d) as [e|]; repeat split; try done.
  - intros t [= <-]. lia.
  - intros He%Z.ltb_lt. f_equal. lia.
  - intros e' [= <-] He%Z.ltb_ge. f_equal. lia.
Qed.

End LedgerMore.

Section LedgerExamples.
Import ConsentRequest ConsentRoutes.

Lemma ledger_statuses_witness :
  ∃ d', requests (store (@run Fixtures.offline Deny
                           (Fixtures.store_with pending) 500
                           "0xa11ce" 1 None Fixtures.receipt)) !! 1%nat
          = Some d' ∧
        rtc edge pending (status d').
Proof.
  destruct (ledger_statuses_along_runs
              (Fixtures.store_with pending)
              (store (@run Fixtures.offline Deny
                        (Fixtures.store_with pending) 500
                        "0xa11ce" 1 None Fixtures.receipt))
              1 (Fixtures.request_at pending))
    as (d' & Hl & Hp & _).
  - apply rtc_once, (Ledger.step_action Fixtures.offline).
  - reflexivity.
  - exists d'. split; [exact Hl | exact Hp].
Defined.

Lemma swept_request_witness :
  response
    (@run Fixtures.bob_online Approve
       {| requests := Cleanup.sweep 2000
                        (requests (Fixtures.store_with pending));
          users := users (Fixtures.store_with pending) |}
       2001 "0xa11ce" 1 None Fixtures.receipt)
  = Error 400 "Request is not pending approval".
Proof.
  apply (@swept_request_cannot_be_decided Fixtures.bob_online
           Approve (Fixtures.store_with pending) 2000 2001 1
           (Fixtures.request_at pending) 1000 None Fixtures.receipt);
    [reflexivity | reflexivity | lia | reflexivity].
Defined.

End LedgerExamples.

Section OwnerAddress.
Import ConsentRequest ConsentRoutes Notions.

Lemma is_space_lower_ascii c : JS.is_space (JS.lower_ascii c) = JS.is_space c.
Proof. destruct c as [[] [] [] [] [] [] [] []]; reflexivity. Qed.

Lemma lower_ascii_idem c : JS.lower_ascii (JS.lower_ascii c) = JS.lower_ascii c.
Proof. destruct c as [[] [] [] [] [] [] [] []]; reflexivity. Qed.

Lemma toLowerCase_idem s : JS.toLowerCase (JS.toLowerCase s) = JS.toLowerCase s.
Proof.
  induction s as [|c s IH]; simpl; [done|]. by rewrite IH, lower_ascii_idem.
Qed.

Lemma trimStart_toLowerCase s :
  JS.trimStart (JS.toLowerCase s) = JS.toLowerCase (JS.trimStart s).
Proof.
  induction s as [|c s IH]; simpl; [done|].
  rewrite is_space_lower_ascii. by destruct (JS.is_space c).
Qed.

Lemma trimEnd_toLowerCase s :
  JS.trimEnd (JS.toLowerCase s) = JS.toLowerCase (JS.trimEnd s).
Proof.
  induction s as [|c s IH]; simpl; [done|].
  rewrite IH, is_space_lower_ascii.
  destruct (JS.trimEnd s); simpl; [|done].
  by destruct (JS.is_space c).
Qed.

(** Trimming and lower-casing commute. *)
Lemma trim_toLowerCase s :
  JS.trim (JS.toLowerCase s) = JS.toLowerCase (JS.trim s).
Proof. unfold JS.trim. by rewrite trimStart_toLowerCase, trimEnd_toLowerCase. Qed.

(** The address stored for the owner is the address of the user the
    route found. *)
Lemma stored_owner_address users owner ownerU :
  keyed_by_address users →
  User.findByAddress users owner = Some ownerU →
  address_setter owner = User.address ownerU.
Proof.
  intros Hkeys Hfind. unfold User.findByAddress in Hfind.
  destruct (Hkeys _ _ Hfind) as [-> _].
  unfold address_setter, User.address_setter.
  by rewrite trim_toLowerCase, toLowerCase_idem.
Qed.

(** X6. Creating and deciding compose.  When the user collection is
    keyed by stored addresses and the create route has stored a request
    whose expiry is not yet past, the request is pending under the
    address of the owner account the route found, however the owner
    address was capitalised or padded with blanks in the request body.
    That owner's approve or deny request for the new id then performs
    the transition, at whatever later time it arrives as long as no sweep
    has run in between and whoever is connected then; it is answered 200
    exactly when the requester has no socket at that time. *)
Theorem created_request_can_be_decided_by_owner
    (at_creation at_decision : Emitters.Connections)
    (st : Store) (now now' : Z) (requesterAddress : string)
    (body : CreateBody) (reason : option string) (bc : BlockchainData)
    (Hkeys : keyed_by_address (users st))
    (Hstored : store (@create_route at_creation st now requesterAddress body)
               ≠ st)
    (Hfuture : ∀ t, b_expiresAt body = Some (ValidDate t) → now ≤ t) :
  let st' := store (@create_route at_creation st now requesterAddress body) in
  let id := fresh (dom (requests st)) in
  ∃ owner ownerU d,
    dataOwnerAddress body = Some owner ∧
    users st !! JS.toLowerCase (JS.trim (JS.toLowerCase owner))
      = Some ownerU ∧
    requests st' !! id = Some d ∧
    status d = pending ∧
    address (dataOwner d) = User.address ownerU ∧
    address (dataOwner d) = JS.toLowerCase (JS.trim owner) ∧
    ∀ a, a = Approve ∨ a = Deny →
      let out := @run at_decision a st' now' (User.address ownerU) id
                      reason bc in
      (∃ d', requests (store out) !! id = Some d' ∧ status d' = target a) ∧
      (succeeded out ↔
       JS.truthy (@Emitters.connectedUsers at_decision
                    !! JS.toLowerCase (address (requester d))) = false).
Proof.
  intros st' id. subst st' id.
  destruct (@create_route_stored at_creation st now requesterAddress body
              Hstored)
    as (o & ty & p & t & ou & ru & Ho & _ & _ & _ & _ & _ & He & Hfo & _ &
        _ & Hst).
  specialize (Hfuture t He).
  set (d := new_doc now requesterAddress ru ou o ty p (b_scope body)
                    (ValidDate t)) in *.
  assert (Hd : pre_save now d = d).
  { unfold pre_save, isExpired. simpl.
    by rewrite (proj2 (Z.ltb_ge t now) Hfuture). }
  rewrite Hd in Hst.
  assert (Hl : requests (store (@create_route at_creation st now
                                  requesterAddress body))
               !! fresh (dom (requests st)) = Some d).
  { rewrite Hst. simpl. by rewrite lookup_insert_eq. }
  assert (Ha : address (dataOwner d) = User.address ou).
  { simpl. by apply (stored_owner_address (users st)). }
  exists o, ou, d. repeat split; try done.
  - destruct (@run_performed at_decision a _ now' _ _ reason bc d Hl Ha)
      as (d' & Hreq & _ & Ht & _); [by destruct H as [-> | ->]|].
    exists d'. by rewrite Hreq, lookup_insert_eq.
  - unfold succeeded.
    destruct (@run_performed at_decision a _ now' _ _ reason bc d Hl Ha)
      as (d' & _ & _ & _ & _ & _ & _ & _ & _ & ->);
      [by destruct H as [-> | ->]|].
    by destruct (JS.truthy _).
  - unfold succeeded.
    destruct (@run_performed at_decision a _ now' _ _ reason bc d Hl Ha)
      as (d' & _ & _ & _ & _ & _ & _ & _ & _ & ->);
      [by destruct H as [-> | ->]|].
    by intros ->.
Qed.

Lemma two_users_keyed : keyed_by_address Fixtures.two_users.
Proof.
  intros k u. unfold Fixtures.two_users.
  rewrite lookup_insert. case_decide as H1.
  - intros [= <-]. subst k. split; reflexivity.
  - rewrite lookup_insert. case_decide as H2; [|by rewrite lookup_empty].
    intros [= <-]. subst k. split; reflexivity.
Qed.

Lemma created_request_witness :
  succeeded
    (@run Fixtures.offline Approve
       (store (@create_route Fixtures.bob_online Fixtures.empty_ledger 500
                 "0xb0b" (Fixtures.body_expiring_at 1000)))
       5000 "0xa11ce" (fresh (dom (requests Fixtures.empty_ledger)))
       None Fixtures.receipt).
Proof.
  destruct (created_request_can_be_decided_by_owner
              Fixtures.bob_online Fixtures.offline
              Fixtures.empty_ledger 500 5000 "0xb0b"
              (Fixtures.body_expiring_at 1000) None Fixtures.receipt)
    as (o & ou & d & Ho & Hfind & Hl & _ & _ & _ & Hdecide).
  - exact two_users_keyed.
  - vm_compute. discriminate.
  - intros t [= <-]. lia.
  - injection Ho as <-.
    assert (Halice : users Fixtures.empty_ledger
                       !! JS.toLowerCase (JS.trim (JS.toLowerCase "0xA11CE"))
                     = Some Fixtures.alice) by reflexivity.
    assert (ou = Fixtures.alice) as -> by congruence.
    assert (Hl' : requests
                    (store (@create_route Fixtures.bob_online
                              Fixtures.empty_ledger 500 "0xb0b"
                              (Fixtures.body_expiring_at 1000)))
                    !! fresh (dom (requests Fixtures.empty_ledger))
                  = Some (new_doc 500 "0xb0b" Fixtures.bob Fixtures.alice
                                  "0xA11CE" "medical" "second opinion" None
                                  (ValidDate 1000)))
      by (vm_compute; reflexivity).
    assert (d = new_doc 500 "0xb0b" Fixtures.bob Fixtures.alice "0xA11CE"
                        "medical" "second opinion" None (ValidDate 1000))
      as -> by congruence.
    destruct (Hdecide Approve (or_introl eq_refl)) as [_ Hsucc].
    apply Hsucc. reflexivity.
Defined.

End OwnerAddress.

(* ===================================================================== *)
(** * Further properties: stored credentials *)
(* ===================================================================== *)

Section StoredCredentials.
Import User.


(** A successful revocation marks the first credential with the hash and
    nothing else. *)
Lemma revoke_first_split h cs cs' :
  revoke_first h cs = Some cs' →
  ∃ before c after,
    cs = (before ++ c :: after)%list ∧
    Forall (λ c, credentialHash c ≠ h) before ∧
    credentialHash c = h ∧
    cs' = (before ++ mark_revoked c :: after)%list.
Proof.
  revert cs'. induction cs as [|c cs IH]; intros cs'; simpl; [done|].
  destruct (credentialHash c =? h)%string eqn:He.
  - apply String.eqb_eq in He. intros [= <-].
    exists [], c, cs. repeat split; done.
  - apply String.eqb_neq in He.
    destruct (revoke_first h cs) as [cs1|]; [|done].
    intros [= <-].
    destruct (IH cs1 eq_refl) as (before & c0 & after & -> & Hb & Hc & ->).
    exists (c :: before), c0, after. repeat split; try done.
    by constructor.
Qed.

Lemma revoke_first_marked h before c after :
  Forall (λ c, credentialHash c ≠ h) before →
  credentialHash c = h →
  revoke_first h ((before ++ c :: after)%list)
    = Some ((before ++ mark_revoked c :: after)%list).
Proof.
  intros Hb Hc. induction Hb as [|b before Hne _ IH]; simpl.
  - by rewrite (proj2 (String.eqb_eq _ _) Hc).
  - by rewrite (proj2 (String.eqb_neq _ _) Hne), IH.
Qed.


Lemma active_app l1 l2 :
  UserStats.active (l1 ++ l2)%list
  = (UserStats.active l1 ++ UserStats.active l2)%list.
Proof. apply filter_app. Qed.

Lemma active_cons_length c l :
  length (UserStats.active (c :: l))
  = ((if isRevoked c then 0 else 1) + length (UserStats.active l))%nat.
Proof.
  unfold UserStats.active. rewrite filter_cons.
  destruct (isRevoked c); case_decide; simpl; congruence.
Qed.

(** X8. Revocation only ever removes activity.  After a successful
    [revokeCredential] the user has as many credentials as before, the
    count of active (not revoked) credentials reported by the statistics
    route has dropped by one when the marked credential was active and is
    unchanged when it was revoked already, no credential has become
    active again, and revoking the same hash once more succeeds and
    changes nothing. *)
Theorem revocation_is_monotone
    (h : string) (u u' : doc)
    (Hrevoked : revokeCredential h u = Some u') :
  UserStats.totalCredentials (UserStats.stats_of u')
    = UserStats.totalCredentials (UserStats.stats_of u) ∧
  (∃ c, c ∈ ssiCredentials u ∧ credentialHash c = h ∧
        UserStats.activeCredentials (UserStats.stats_of u)
        = ((if isRevoked c then 0 else 1)
           + UserStats.activeCredentials (UserStats.stats_of u'))%nat) ∧
  Forall2 (λ c c', credentialHash c' = credentialHash c ∧
                   (isRevoked c = true → isRevoked c' = true))
          (ssiCredentials u) (ssiCredentials u') ∧
  revokeCredential h u' = Some u'.
Proof.
  unfold revokeCredential in *.
  destruct (revoke_first h (ssiCredentials u)) as [cs'|] eqn:Hr; [|done].
  injection Hrevoked as <-.
  destruct (revoke_first_split _ _ _ Hr)
    as (before & c & after & Hcs & Hb & Hc & ->).
  unfold UserStats.stats_of. simpl. rewrite Hcs.
  repeat split.
  - by rewrite !length_app.
  - exists c. split; [|split; [done|]].
    + apply elem_of_app. right. by left.
    + rewrite !active_app, !length_app, !active_cons_length. simpl. lia.
  - apply Forall2_app.
    + clear. induction before; constructor; done.
    + constructor; [done|].
      clear. induction after; constructor; done.
  - rewrite revoke_first_marked by done.
    unfold set_credentials. simpl. do 3 f_equal.
Qed.

Lemma revocation_witness :
  UserStats.activeCredentials (UserStats.stats_of MoreFixtures.twin_holder)
    = 2%nat ∧
  ∃ u', revokeCredential "urn:uuid:1" MoreFixtures.twin_holder = Some u' ∧
        UserStats.totalCredentials (UserStats.stats_of u') = 2%nat.
Proof.
  split; [reflexivity|].
  eexists. split; [reflexivity|].
  apply (revocation_is_monotone "urn:uuid:1" MoreFixtures.twin_holder).
  reflexivity.
Defined.

End StoredCredentials.

(* ===================================================================== *)
(** * Further properties: proof service *)
(* ===================================================================== *)

Section MerkleMore.
Context `{Runtime}.

Lemma buildMerkleTree_empty fuel : ZKP.buildMerkleTree fuel [] = None.
Proof. induction fuel as [|fuel IH]; simpl; done. Qed.

(** More frames than needed change nothing. *)
Lemma buildMerkleTree_more_fuel fuel l r :
  ZKP.buildMerkleTree fuel l = Some r →
  ZKP.buildMerkleTree (S fuel) l = Some r.
Proof.
  revert l. induction fuel as [|fuel IH]; intros l.
  - destruct l as [|a [|b l]]; simpl; done.
  - destruct l as [|a [|b l]].
    + intros Hb. by rewrite buildMerkleTree_empty in Hb.
    + done.
    + intros Hb. apply IH in Hb. exact Hb.
Qed.

Lemma buildMerkleTree_fuel_le f1 f2 l r :
  (f1 ≤ f2)%nat →
  ZKP.buildMerkleTree f1 l = Some r → ZKP.buildMerkleTree f2 l = Some r.
Proof.
  induction 1 as [|f2 _ IH]; [done|].
  intros Hb. by apply buildMerkleTree_more_fuel, IH.
Qed.

Lemma buildMerkleTree_enough f1 f2 l :
  l ≠ [] → (length l ≤ f1)%nat → (length l ≤ f2)%nat →
  ZKP.buildMerkleTree f1 l = ZKP.buildMerkleTree f2 l.
Proof.
  intros Hne H1 H2.
  destruct (buildMerkleTree_returns (length l) l Hne (le_n _)) as [[r Hr] _].
  rewrite (buildMerkleTree_fuel_le _ f1 l r H1 Hr).
  by rewrite (buildMerkleTree_fuel_le _ f2 l r H2 Hr).
Qed.

(** X9. [generateMerkleTree] fails exactly on the empty array: there the
    recursion never reaches its base case, whatever stack depth is
    available, and for every non-empty array the call returns a tree
    whose leaves are the hashes of the items, in order. *)
Theorem merkle_fails_on_empty_only (dataArray : list Json) :
  (∀ fuel, ZKP.buildMerkleTree fuel [] = None) ∧
  (ZKP.generateMerkleTree dataArray = None ↔ dataArray = []) ∧
  (∀ t, ZKP.generateMerkleTree dataArray = Some t →
        ZKP.leaves t = map ZKP.leaf_hash dataArray ∧
        length (ZKP.leaves t) = length dataArray).
Proof.
  split; [apply buildMerkleTree_empty|].
  unfold ZKP.generateMerkleTree. split.
  - destruct dataArray as [|x rest]; [done|].
    assert (Hne : map ZKP.leaf_hash (x :: rest) ≠ []) by done.
    destruct (buildMerkleTree_returns _ _ Hne (le_n _)) as [[r Hr] _].
    rewrite Hr. done.
  - intros t. destruct (ZKP.buildMerkleTree _ _); [|done].
    intros [= <-]. simpl. by rewrite length_map.
Qed.

Lemma pair_level_duplicate_last (l : list string) (x : string) :
  Nat.even (length l) = true →
  ZKP.pair_level (l ++ [x]) = ZKP.pair_level (l ++ [x; x]).
Proof.
  revert l. fix IH 1. intros [|a [|b l]]; simpl; try done.
  intros He. f_equal. by apply IH.
Qed.

Lemma ceil_log2_odd_succ (n : nat) :
  (3 ≤ n)%nat → Nat.odd n = true →
  ZKP.ceil_log2 (S n) = ZKP.ceil_log2 n.
Proof.
  intros Hn Hodd. unfold ZKP.ceil_log2.
  apply Nat.odd_spec in Hodd as [k ->].
  rewrite (log2_up_halve (Z.of_nat (S (2 * k + 1)))) by lia.
  rewrite (log2_up_halve (Z.of_nat (2 * k + 1))) by lia.
  do 2 f_equal.
  replace (Z.of_nat (S (2 * k + 1)) + 1) with (1 + (Z.of_nat k + 1) * 2) by lia.
  replace (Z.of_nat (2 * k + 1) + 1) with (0 + (Z.of_nat k + 1) * 2) by lia.
  rewrite !Z.div_add by lia. reflexivity.
Qed.

(** X10. Repeating the last item of an odd-length array does not change
    the commitment: for an even number (at least two) of items [l] and
    any item [x], the trees of [l ++ [x]] and of [l ++ [x; x]] have the
    same root and the same reported height, although they commit to
    different numbers of leaves. *)
Theorem merkle_last_item_can_be_repeated
    (l : list Json) (x : Json)
    (Hnonempty : l ≠ [])
    (Heven : Nat.even (length l) = true) :
  ∃ t1 t2,
    ZKP.generateMerkleTree (l ++ [x]) = Some t1 ∧
    ZKP.generateMerkleTree (l ++ [x; x]) = Some t2 ∧
    ZKP.root t1 = ZKP.root t2 ∧
    ZKP.treeHeight t1 = ZKP.treeHeight t2 ∧
    length (ZKP.leaves t2) = S (length (ZKP.leaves t1)).
Proof.
  assert (Hlen : (2 ≤ length l)%nat).
  { destruct l as [|a [|b l]]; simpl in *; try done. lia. }
  unfold ZKP.generateMerkleTree. rewrite !map_app. simpl map.
  set (hs := map ZKP.leaf_hash l). set (hx := ZKP.leaf_hash x).
  assert (Hhs : length hs = length l) by apply length_map.
  assert (Hev : Nat.even (length hs) = true) by (by rewrite Hhs).
  assert (H1 : length (hs ++ [hx]) = S (length l))
    by (rewrite length_app, Hhs; simpl; lia).
  assert (H2 : length (hs ++ [hx; hx]) = S (S (length l)))
    by (rewrite length_app, Hhs; simpl; lia).
  assert (Hne1 : (hs ++ [hx])%list ≠ []) by (by destruct hs).
  destruct (buildMerkleTree_returns _ _ Hne1 (le_n _)) as [[r Hr] _].
  assert (Hr2 : ZKP.buildMerkleTree (length (hs ++ [hx; hx])) (hs ++ [hx; hx])
                = Some r).
  { rewrite H2. rewrite H1 in Hr.
    destruct hs as [|a [|b hs']]; simpl in Hhs; try lia.
    change (ZKP.buildMerkleTree (S (length l)) ((a :: b :: hs') ++ [hx]))
      with (ZKP.buildMerkleTree (length l)
              (ZKP.pair_level ((a :: b :: hs') ++ [hx]))) in Hr.
    change (ZKP.buildMerkleTree (S (S (length l)))
              ((a :: b :: hs') ++ [hx; hx]))
      with (ZKP.buildMerkleTree (S (length l))
              (ZKP.pair_level ((a :: b :: hs') ++ [hx; hx]))).
    rewrite <- pair_level_duplicate_last by done.
    by apply buildMerkleTree_more_fuel. }
  rewrite Hr, Hr2. eexists _, _. repeat split; simpl.
  - rewrite H1, H2. symmetry. apply ceil_log2_odd_succ; [lia|].
    rewrite Nat.odd_succ. by rewrite <- Hhs.
  - rewrite !length_app. simpl. lia.
Qed.

End MerkleMore.

Lemma merkle_repeat_witness :
  ∃ t1 t2,
    @ZKP.generateMerkleTree Fixtures.example_runtime
      [JStr "a"; JStr "b"; JStr "c"] = Some t1 ∧
    @ZKP.generateMerkleTree Fixtures.example_runtime
      [JStr "a"; JStr "b"; JStr "c"; JStr "c"] = Some t2 ∧
    ZKP.root t1 = ZKP.root t2.
Proof.
  destruct (@merkle_last_item_can_be_repeated Fixtures.example_runtime
              [JStr "a"; JStr "b"] (JStr "c"))
    as (t1 & t2 & H1 & H2 & Hroot & _).
  - discriminate.
  - reflexivity.
  - exists t1, t2. repeat split; [exact H1 | exact H2 | exact Hroot].
Defined.


Section GeneratedProofs.
Context `{Runtime}.
Import JsObject ZKPGenerators.

Lemma hex_digit_in_alphabet (n : N) :
  In (NodeCrypto.hex_digit n) (list_ascii_of_string "0123456789abcdef").
Proof.
  destruct n as [|p]; [simpl; tauto|].
  do 5 (try destruct p as [p|p|]); simpl; tauto.
Qed.

Lemma toString_hex_alphabet (buf : list Byte.byte) (c : ascii) :
  In c (list_ascii_of_string (NodeCrypto.toString_hex buf)) →
  In c (list_ascii_of_string "0123456789abcdef").
Proof.
  induction buf as [|b buf IH]; [done|].
  cbn [NodeCrypto.toString_hex list_ascii_of_string].
  intros [<-|[<-|Hin]]; [apply hex_digit_in_alphabet..|by apply IH].
Qed.

(** X11. Every nonce the service generates, for an age proof and for a
    data-access proof alike and whatever the random bytes, has exactly 32
    characters, each a lower-case hexadecimal digit; so the nonce check
    of the verifiers never rejects a proof the service generated. *)
Theorem generated_nonces_are_32_hex_digits
    (now : Z) (entropy : nat → Byte.byte)
    (actualAge minimumAge : Z) (userId dataType accessLevel : string) :
  let age := ZKP.generateAgeProof now entropy actualAge minimumAge in
  let access :=
    ZKP.generateDataAccessProof now entropy userId dataType accessLevel in
  String.length (ZKP.nonce age) = 32%nat ∧
  String.length (ZKP.ap_nonce access) = 32%nat ∧
  (∀ c, In c (list_ascii_of_string (ZKP.nonce age)) →
        In c (list_ascii_of_string "0123456789abcdef")) ∧
  (∀ c, In c (list_ascii_of_string (ZKP.ap_nonce access)) →
        In c (list_ascii_of_string "0123456789abcdef")).
Proof.
  cbv zeta. unfold ZKP.generateAgeProof, ZKP.generateDataAccessProof.
  cbn [ZKP.nonce ZKP.ap_nonce].
  repeat split; try apply nonce_length; apply toString_hex_alphabet.
Qed.

(** X12. Generating and verifying an age proof compose to the plain
    comparison: the proof generated at [t1] is found valid at [t2]
    exactly when the actual age reaches the minimum and less than 24
    hours (86 400 000 ms) have passed, whatever verification data are
    supplied. *)
Theorem age_proof_valid_iff
    (t1 t2 : Z) (entropy : nat → Byte.byte)
    (actualAge minimumAge : Z) (verificationData : Json) :
  ZKP.v_isValid
    (ZKP.verifyProof t2
       (ZKP.generateAgeProof t1 entropy actualAge minimumAge)
       verificationData) = true
  ↔ minimumAge ≤ actualAge ∧ t2 - t1 < 86400000.
Proof.
  unfold ZKP.verifyProof, ZKP.generateAgeProof.
  cbn [ZKP.v_isValid ZKP.isValid ZKP.timestamp ZKP.nonce].
  rewrite nonce_length, !andb_true_iff, Z.leb_le, Z.ltb_lt, Nat.eqb_eq.
  intuition lia.
Qed.

Lemma string_append_assoc (s1 s2 s3 : string) :
  (s1 ++ s2) ++ s3 = s1 ++ (s2 ++ s3).
Proof.
  induction s1 as [|c s1 IH]; [done|].
  change (String c ((s1 ++ s2) ++ s3) = String c (s1 ++ (s2 ++ s3))).
  by rewrite IH.
Qed.

(** X13. A data-access proof is keyed by the three strings joined with
    hyphens, so the hash does not tell where one string ends: the proof
    generated for user [u - x] and data type [d] is accepted, within its
    hour, as a proof for user [u] and data type [x - d]. *)
Theorem access_proof_hyphen_ambiguity
    (t1 t2 : Z) (entropy : nat → Byte.byte) (u x d level : string)
    (Hfresh : t2 - t1 < 3600000) :
  ZKP.accessGranted
    (ZKP.verifyDataAccessProof t2
       (ZKP.generateDataAccessProof t1 entropy (u ++ "-" ++ x) d level)
       u (x ++ "-" ++ d) level) = true.
Proof.
  apply verifyDataAccessProof_granted.
  unfold ZKP.generateDataAccessProof.
  cbn [ZKP.accessHash ZKP.ap_timestamp ZKP.ap_nonce].
  rewrite nonce_length. repeat split; [|done].
  f_equal. unfold ZKP.access_key.
  rewrite !string_append_assoc. reflexivity.
Qed.

End GeneratedProofs.

Lemma access_proof_ambiguity_witness :
  ZKP.accessGranted
    (@ZKP.verifyDataAccessProof Fixtures.example_runtime 1005
       (@ZKP.generateDataAccessProof Fixtures.example_runtime 1000
          (λ _, Byte.x2a) "0xb0b-medical" "records" "read")
       "0xb0b" "medical-records" "read") = true.
Proof.
  apply (@access_proof_hyphen_ambiguity Fixtures.example_runtime
           1000 1005 (λ _, Byte.x2a) "0xb0b" "medical" "records" "read").
  lia.
Defined.

Section LocationAndCredentialProofs.
Context `{Runtime}.
Import JsObject ZKPGenerators.

Lemma some_region_false loc regions :
  some_region loc regions = Some false →
  Forall (λ r, region_matches loc r = Some false) regions.
Proof.
  induction regions as [|r rs IH]; simpl; [constructor|].
  destruct (region_matches loc r) as [[|]|] eqn:Hm; try done.
  intros Hs. constructor; [done | by apply IH].
Qed.

Lemma some_region_true loc regions :
  some_region loc regions = Some true →
  ∃ r, r ∈ regions ∧ region_matches loc r = Some true.
Proof.
  induction regions as [|r rs IH]; simpl; [done|].
  destruct (region_matches loc r) as [[|]|] eqn:Hm; try done.
  - intros _. exists r. split; [by left | done].
  - intros Hs. destruct (IH Hs) as (r' & Hin & Hr').
    exists r'. split; [by right | done].
Qed.

Lemma get_not_null o k : o ≠ JNull → ∃ v, get o k = Value v.
Proof. destruct o; simpl; eauto. done. Qed.

Lemma region_matches_defined loc r :
  loc ≠ JNull → r ≠ JNull → is_Some (region_matches loc r).
Proof.
  intros Hl Hr. unfold region_matches.
  destruct (get_not_null loc "country" Hl) as [a ->].
  destruct (get_not_null r "country" Hr) as [b ->].
  destruct (get_not_null loc "state" Hl) as [c ->].
  destruct (get_not_null r "state" Hr) as [d ->].
  destruct (strict_eq a b); eauto.
Qed.

Lemma some_region_defined loc regions :
  loc ≠ JNull → Forall (λ r, r ≠ JNull) regions →
  is_Some (some_region loc regions).
Proof.
  intros Hl Hall. induction Hall as [|r rs Hr _ IH]; simpl; [eauto|].
  destruct (region_matches_defined loc r Hl Hr) as [[|] ->]; eauto.
Qed.

(** X14. The location proof's validity flag is the plain search made at
    generation time: when [generateLocationProof] returns, the flag is
    true exactly when some allowed region has the same country and the
    same state as the user's location.  With no allowed region the proof
    is generated and invalid.  The call returns whenever the location and
    the regions are not [null]; the proof carries the generation time. *)
Theorem location_proof_validity
    (now : Z) (entropy : nat → Byte.byte)
    (userLocation : Json) (allowedRegions : list Json) :
  (∃ p, generateLocationProof now entropy userLocation [] = Some p ∧
        ZKP.isValid p = false) ∧
  (∀ p, generateLocationProof now entropy userLocation allowedRegions
          = Some p →
        ZKP.timestamp p = now ∧
        (ZKP.isValid p = true ↔
         ∃ region, region ∈ allowedRegions ∧
                   region_matches userLocation region = Some true)) ∧
  (userLocation ≠ JNull → Forall (λ r, r ≠ JNull) allowedRegions →
     is_Some (generateLocationProof now entropy userLocation allowedRegions)) ∧
  (∀ region a b c d,
     get userLocation "country" = Value a → get region "country" = Value b →
     get userLocation "state" = Value c → get region "state" = Value d →
     region_matches userLocation region
       = Some (strict_eq a b && strict_eq c d)).
Proof.
  split; [|split; [|split]].
  - eexists. split; reflexivity.
  - intros p. unfold generateLocationProof.
    destruct (some_region userLocation allowedRegions) as [b|] eqn:Hs; [|done].
    intros [= <-]. simpl. split; [done|]. split.
    + intros ->. by apply some_region_true.
    + intros (r & Hin & Hr). destruct b; [done|].
      apply some_region_false in Hs. rewrite Forall_forall in Hs.
      specialize (Hs r Hin). congruence.
  - intros Hl Hall. unfold generateLocationProof.
    destruct (some_region_defined userLocation allowedRegions Hl Hall)
      as [b ->]. eauto.
  - intros region a b c d Ha Hb Hc Hd. unfold region_matches.
    rewrite Ha, Hb, Hc, Hd. by destruct (strict_eq a b).
Qed.

Lemma some_credential_false required credentials :
  some_credential required credentials = Some false →
  Forall (λ c, credential_matches c required = Some false) credentials.
Proof.
  induction credentials as [|c cs IH]; simpl; [constructor|].
  destruct (credential_matches c required) as [[|]|] eqn:Hm; try done.
  intros Hs. constructor; [done | by apply IH].
Qed.

Lemma some_credential_true required credentials :
  some_credential required credentials = Some true →
  ∃ c, c ∈ credentials ∧ credential_matches c required = Some true.
Proof.
  induction credentials as [|c cs IH]; simpl; [done|].
  destruct (credential_matches c required) as [[|]|] eqn:Hm; try done.
  - intros _. exists c. split; [by left | done].
  - intros Hs. destruct (IH Hs) as (c' & Hin & Hc').
    exists c'. split; [by right | done].
Qed.

Lemma every_required_true credentials requiredCredentials :
  every_required credentials requiredCredentials = Some true →
  ∀ required, required ∈ requiredCredentials →
    ∃ c, c ∈ credentials ∧ credential_matches c required = Some true.
Proof.
  induction requiredCredentials as [|r rs IH]; simpl.
  - intros _ required Hin. by apply elem_of_nil in Hin.
  - destruct (some_credential r credentials) as [[|]|] eqn:Hs; try done.
    intros He required Hin. apply elem_of_cons in Hin as [->|Hin].
    + by apply some_credential_true.
    + by apply IH.
Qed.

Lemma every_required_false credentials requiredCredentials :
  every_required credentials requiredCredentials = Some false →
  ∃ required, required ∈ requiredCredentials ∧
    Forall (λ c, credential_matches c required = Some false) credentials.
Proof.
  induction requiredCredentials as [|r rs IH]; simpl; [done|].
  destruct (some_credential r credentials) as [[|]|] eqn:Hs; try done.
  - intros He. destruct (IH He) as (r' & Hin & Hall).
    exists r'. split; [by right | done].
  - intros _. exists r. split; [by left | by apply some_credential_false].
Qed.

Lemma credential_matches_status cred required :
  credential_matches cred required = Some true →
  get cred "status" = Value (Some (JStr "valid")).
Proof.
  unfold credential_matches.
  destruct (get cred "type") as [|a]; [done|].
  destruct (get required "type") as [|b]; [done|].
  destruct (strict_eq a b); [|done].
  destruct (get cred "issuer") as [|c]; [done|].
  destruct (get required "issuer") as [|d]; [done|].
  destruct (strict_eq c d); [|done].
  destruct (get cred "status") as [|s]; [done|].
  intros [= Hs]. f_equal.
  destruct s as [[| | |s| |]|]; try done.
  simpl in Hs. apply String.eqb_eq in Hs. by subst.
Qed.

(** A held credential matches a requirement exactly when the two types
    are equal, the two issuers are equal and the status is ['valid']. *)
Lemma credential_matches_true cred required :
  credential_matches cred required = Some true ↔
  ∃ type type' issuer issuer',
    get cred "type" = Value type ∧ get required "type" = Value type' ∧
    strict_eq type type' = true ∧
    get cred "issuer" = Value issuer ∧
    get required "issuer" = Value issuer' ∧
    strict_eq issuer issuer' = true ∧
    get cred "status" = Value (Some (JStr "valid")).
Proof.
  split.
  - intros Hm. pose proof (credential_matches_status _ _ Hm) as Hstatus.
    revert Hm. unfold credential_matches.
    destruct (get cred "type") as [|a]; [done|].
    destruct (get required "type") as [|b]; [done|].
    destruct (strict_eq a b) eqn:Hab; [|done].
    destruct (get cred "issuer") as [|c]; [done|].
    destruct (get required "issuer") as [|d]; [done|].
    destruct (strict_eq c d) eqn:Hcd; [|done].
    intros _. by exists a, b, c, d.
  - intros (a & b & c & d & Ha & Hb & Hab & Hc & Hd & Hcd & Hs).
    unfold credential_matches. by rewrite Ha, Hb, Hab, Hc, Hd, Hcd, Hs.
Qed.

(** X15. The credential proof's validity flag is the plain check made at
    generation time: when [generateCredentialProof] returns, the flag is
    true exactly when every required credential is matched by some held
    credential that has the same type ([===]) and the same issuer and
    whose status is the string ['valid'].  With nothing required the
    proof is valid whatever is held; with something required and nothing
    held it is invalid.  Whenever the five properties can be read, the
    match of one held credential with one requirement is the conjunction
    of the three comparisons. *)
Theorem credential_proof_validity
    (now : Z) (entropy : nat → Byte.byte)
    (credentials requiredCredentials : list Json) :
  (∃ p, generateCredentialProof now entropy credentials [] = Some p ∧
        ZKP.isValid p = true) ∧
  (∀ required rest,
     ∃ p, generateCredentialProof now entropy [] (required :: rest) = Some p ∧
          ZKP.isValid p = false) ∧
  (∀ p, generateCredentialProof now entropy credentials requiredCredentials
          = Some p →
        (ZKP.isValid p = true ↔
         ∀ required, required ∈ requiredCredentials →
           ∃ cred type type' issuer issuer',
             cred ∈ credentials ∧
             get cred "type" = Value type ∧
             get required "type" = Value type' ∧
             strict_eq type type' = true ∧
             get cred "issuer" = Value issuer ∧
             get required "issuer" = Value issuer' ∧
             strict_eq issuer issuer' = true ∧
             get cred "status" = Value (Some (JStr "valid")))) ∧
  (∀ cred required type type' issuer issuer' status,
     get cred "type" = Value type → get required "type" = Value type' →
     get cred "issuer" = Value issuer →
     get required "issuer" = Value issuer' →
     get cred "status" = Value status →
     credential_matches cred required
       = Some (strict_eq type type' && strict_eq issuer issuer' &&
               strict_eq status (Some (JStr "valid")))).
Proof.
  split; [|split; [|split]].
  - eexists. split; reflexivity.
  - intros required rest. eexists. split; reflexivity.
  - intros p. unfold generateCredentialProof.
    destruct (every_required credentials requiredCredentials) as [b|] eqn:He;
      [|done].
    intros [= <-]. simpl. split.
    + intros ->. intros required Hin.
      destruct (every_required_true _ _ He required Hin) as (c & Hc & Hm).
      apply credential_matches_true in Hm
        as (ty & ty' & i & i' & ? & ? & ? & ? & ? & ? & ?).
      exists c, ty, ty', i, i'. done.
    + intros Hall. destruct b; [done|].
      destruct (every_required_false _ _ He) as (r & Hin & Hnone).
      destruct (Hall r Hin)
        as (c & ty & ty' & i & i' & Hc & Hm).
      assert (Hmatch : credential_matches c r = Some true).
      { apply credential_matches_true. by exists ty, ty', i, i'. }
      rewrite Forall_forall in Hnone. specialize (Hnone c Hc). congruence.
  - intros cred required ty ty' i i' st Ha Hb Hc Hd Hs.
    unfold credential_matches. rewrite Ha, Hb, Hc, Hd, Hs.
    by destruct (strict_eq ty ty'), (strict_eq i i').
Qed.

End LocationAndCredentialProofs.

(* ===================================================================== *)
(** * Further properties: credential and identity checks *)
(* ===================================================================== *)

Section PresentationMore.
Context `{SSI.Env}.
Import SSI.


(** X17. A presentation that wraps no credential at all is accepted:
    when the token verifies, is not expired, carries the challenge as its
    nonce and its holder DID resolves, [verifyPresentation] answers
    [isValid = true] with an empty list of credential results. *)
Theorem presentation_without_credentials_verifies
    (now : Z) (presentationJWT ch : string)
    (decoded : Payload) (p : Presentation)
    (Hjwt : jwt_verify now presentationJWT = Some decoded)
    (Hexp : exp_passed now (exp decoded) = false)
    (Hnonce : nonce decoded = Some ch)
    (Hholder : is_Some (resolveDID (iss decoded)))
    (Hvp : vp decoded = Some p)
    (Hempty : verifiableCredential p = []) :
  verifyPresentation now presentationJWT ch
    = {| pv_isValid := true; pv_error := None; pv_credentials := [] |}.
Proof.
  unfold verifyPresentation. rewrite Hjwt, Hexp.
  rewrite (bool_decide_eq_true_2 _ Hnonce). simpl.
  apply did_accepted_iff in Hholder. rewrite Hholder, Hvp, Hempty.
  reflexivity.
Qed.

End PresentationMore.


Lemma empty_presentation_witness :
  SSI.pv_isValid
    (@SSI.verifyPresentation MoreFixtures.empty_presentation_env 1000000000
       "empty.jwt" "challenge-2") = true.
Proof.
  rewrite (@presentation_without_credentials_verifies
             MoreFixtures.empty_presentation_env 1000000000
             "empty.jwt" "challenge-2"
             MoreFixtures.empty_presentation_payload
             {| SSI.holder := "did:ethr:0xb0b";
                SSI.verifiableCredential := [];
                SSI.challenge := "challenge-2" |});
    try reflexivity.
  eexists. reflexivity.
Defined.

Section NameOwnership.
Context `{ENSService.Env}.
Import ENSService.

(** X18. The name-ownership check compares addresses without regard to
    letter case and fails closed: it answers true exactly when the
    registry returns an owner whose lower-cased address equals the
    lower-cased claimed address, and false when the name or the address
    is missing or the registry call fails. *)
Theorem ens_ownership_ignores_case (name a : string) :
  (verifyENSOwnership (Some name) (Some a) = true ↔
     ∃ owner, owner_of name = Some owner ∧
              JS.toLowerCase owner = JS.toLowerCase a) ∧
  verifyENSOwnership (Some name) (Some (JS.toLowerCase a))
    = verifyENSOwnership (Some name) (Some a) ∧
  verifyENSOwnership None (Some a) = false ∧
  verifyENSOwnership (Some name) None = false ∧
  (owner_of name = None → verifyENSOwnership (Some name) (Some a) = false).
Proof.
  unfold verifyENSOwnership. repeat split.
  - destruct (owner_of name) as [o|]; [|done].
    intros He%String.eqb_eq. eauto.
  - intros (o & -> & He). by apply String.eqb_eq.
  - destruct (owner_of name); [|done]. by rewrite toLowerCase_idem.
  - by destruct (owner_of name).
  - by intros ->.
Qed.

End NameOwnership.

(* ===================================================================== *)
(** * Further properties: security gates *)
(* ===================================================================== *)

Section MultiFactor.
Context {runtime : Runtime} {ssi : SSI.Env} {ens : ENSService.Env}.
Import SecurityMiddleware SecurityGates.

(** X19. What a passed multi-factor check guarantees.  When
    [multiFactorSecurity] calls [next()], the name-ownership check has
    succeeded; a proof, if one was supplied, is valid; the data, if a CID
    was supplied, exist in storage; and a presentation has been verified
    against the challenge if both were supplied.  The recorded flags say
    which inputs were supplied. *)
Theorem multi_factor_pass_guarantees
    (dataExists : string → bool) (now : Z) (body : MultiFactorBody)
    (v : SecurityVerification)
    (Hpass : multiFactorSecurity dataExists now body = Next v) :
  ENSService.verifyENSOwnership (ensName body) (mf_userAddress body) = true ∧
  (∀ proof, zkpProof body = Some proof →
     ZKP.v_isValid (ZKP.verifyProof now proof (raw body)) = true) ∧
  (∀ jwt ch, ssiPresentation body = Some jwt → jwt ≠ "" →
             mf_challenge body = Some ch → ch ≠ "" →
     SSI.pv_isValid (SSI.verifyPresentation now jwt ch) = true) ∧
  (∀ cid, mf_dataCID body = Some cid → cid ≠ "" → dataExists cid = true) ∧
  v = {| ensVerified := true;
         zkpVerified := bool_decide (is_Some (zkpProof body));
         ssiVerified := JS.truthy (ssiPresentation body);
         dataAccessVerified := JS.truthy (mf_dataCID body);
         sv_timestamp := now |}.
Proof.
  revert Hpass. unfold multiFactorSecurity.
  destruct (ENSService.verifyENSOwnership _ _) eqn:Hens;
    cbn [negb]; [|done].
  assert (Hproof : ∀ proof, zkpProof body = Some proof →
            ZKP.v_isValid (ZKP.verifyProof now proof (raw body)) = false →
            match zkpProof body with
            | Some proof =>
                negb (ZKP.v_isValid (ZKP.verifyProof now proof (raw body)))
            | None => false
            end = true).
  { intros proof -> ->. reflexivity. }
  destruct (match zkpProof body with Some _ => _ | None => _ end) eqn:Hzkp;
    [done|].
  destruct (JS.truthy (ssiPresentation body) && JS.truthy (mf_challenge body)
            && _) eqn:Hssi; [done|].
  destruct (JS.truthy (mf_dataCID body) && _) eqn:Hcid; [done|].
  intros Hv. injection Hv as <-. repeat split; try done.
  - intros proof Hp.
    destruct (ZKP.v_isValid (ZKP.verifyProof now proof (raw body))) eqn:Hv;
      [done|].
    specialize (Hproof proof Hp Hv). congruence.
  - intros jwt ch Hj Hjne Hc Hcne. rewrite Hj, Hc in Hssi. simpl in Hssi.
    apply String.eqb_neq in Hjne, Hcne. rewrite Hjne, Hcne in Hssi.
    simpl in Hssi. by apply negb_false_iff in Hssi.
  - intros cid Hd Hdne. rewrite Hd in Hcid. simpl in Hcid.
    apply String.eqb_neq in Hdne. rewrite Hdne in Hcid.
    simpl in Hcid. by apply negb_false_iff in Hcid.
Qed.

(** X20. The credential gate is skipped, not failed, when the challenge
    is missing.  For a request that names a presentation but no
    challenge, the multi-factor check passes exactly when the other
    gates pass (the name-ownership check succeeds, a supplied proof is
    valid, supplied data exist); the presentation is not looked at, so
    the outcome is the same whatever the JWT library and the DID
    registry would say about it; and every pass is recorded with
    [ssiVerified = true]. *)
Theorem presentation_without_challenge_is_not_checked
    (dataExists : string → bool) (now : Z) (body : MultiFactorBody)
    (jwt : string)
    (Hjwt : ssiPresentation body = Some jwt)
    (Hjwt_truthy : jwt ≠ "")
    (Hchallenge : JS.truthy (mf_challenge body) = false) :
  ((∃ v, multiFactorSecurity dataExists now body = Next v) ↔
     ENSService.verifyENSOwnership (ensName body) (mf_userAddress body)
       = true ∧
     (∀ proof, zkpProof body = Some proof →
        ZKP.v_isValid (ZKP.verifyProof now proof (raw body)) = true) ∧
     (∀ cid, mf_dataCID body = Some cid → cid ≠ "" →
        dataExists cid = true)) ∧
  (∀ v, multiFactorSecurity dataExists now body = Next v →
        ssiVerified v = true) ∧
  (∀ other : SSI.Env,
     @multiFactorSecurity runtime other ens dataExists now body
       = @multiFactorSecurity runtime ssi ens dataExists now body).
Proof.
  assert (Hgate : ∀ env : SSI.Env,
            JS.truthy (ssiPresentation body) && JS.truthy (mf_challenge body)
            && negb (SSI.pv_isValid
                       (@SSI.verifyPresentation env now
                          (JS.or_default (ssiPresentation body) "")
                          (JS.or_default (mf_challenge body) ""))) = false).
  { intros env. by rewrite Hchallenge, andb_false_r. }
  assert (Hflag : JS.truthy (ssiPresentation body) = true).
  { rewrite Hjwt. simpl. apply negb_true_iff. by apply String.eqb_neq. }
  split; [|split].
  - unfold multiFactorSecurity. rewrite Hgate. split.
    + intros [v Hv].
      destruct (ENSService.verifyENSOwnership _ _); [|done].
      cbn [negb] in Hv. split; [done|]. split.
      * intros proof Hp. rewrite Hp in Hv.
        by destruct (ZKP.v_isValid _).
      * intros cid Hc Hcne. rewrite Hc in Hv.
        destruct (match zkpProof body with Some _ => _ | None => _ end);
          [done|].
        apply String.eqb_neq in Hcne. simpl in Hv. rewrite Hcne in Hv.
        simpl in Hv. by destruct (dataExists cid).
    + intros (Hens & Hzkp & Hcid). rewrite Hens. cbn [negb].
      assert (Hz : match zkpProof body with
                   | Some proof =>
                       negb (ZKP.v_isValid
                               (ZKP.verifyProof now proof (raw body)))
                   | None => false
                   end = false).
      { destruct (zkpProof body) as [proof|]; [|done].
        by rewrite (Hzkp proof eq_refl). }
      rewrite Hz.
      assert (Hd : JS.truthy (mf_dataCID body) &&
                   negb (dataExists (JS.or_default (mf_dataCID body) ""))
                   = false).
      { destruct (mf_dataCID body) as [cid|]; [|done]. simpl.
        destruct (String.eqb cid "") eqn:He; [done|].
        apply String.eqb_neq in He. by rewrite (Hcid cid eq_refl He). }
      rewrite Hd. eauto.
  - intros v. unfold multiFactorSecurity. rewrite Hgate.
    destruct (negb _); [done|].
    destruct (match zkpProof body with Some _ => _ | None => _ end); [done|].
    destruct (JS.truthy (mf_dataCID body) && _); [done|].
    intros [= <-]. exact Hflag.
  - intros other. unfold multiFactorSecurity.
    by rewrite (Hgate other), (Hgate ssi).
Qed.

End MultiFactor.

Lemma multi_factor_pass_witness :
  ENSService.verifyENSOwnership (H := MoreFixtures.example_ens)
    (Some "alice.eth") (Some "0xa11ce") = true.
Proof.
  apply (@multi_factor_pass_guarantees
           Fixtures.example_runtime Fixtures.example_env
           MoreFixtures.example_ens (λ _, false) 77
           MoreFixtures.unchallenged_body
           {| SecurityGates.ensVerified := true;
              SecurityGates.zkpVerified := false;
              SecurityGates.ssiVerified := true;
              SecurityGates.dataAccessVerified := false;
              SecurityGates.sv_timestamp := 77 |}).
  reflexivity.
Defined.

Lemma unchecked_presentation_witness :
  SSI.pv_isValid (@SSI.verifyPresentation Fixtures.example_env 77
                    "not-a-token" "") = false ∧
  ∃ v, @SecurityGates.multiFactorSecurity
         Fixtures.example_runtime Fixtures.example_env MoreFixtures.example_ens
         (λ _, false) 77 MoreFixtures.unchallenged_body
       = SecurityMiddleware.Next v.
Proof.
  split; [reflexivity|].
  apply (@presentation_without_challenge_is_not_checked
           Fixtures.example_runtime Fixtures.example_env
           MoreFixtures.example_ens (λ _, false) 77
           MoreFixtures.unchallenged_body "not-a-token");
    [reflexivity | discriminate | reflexivity |].
  split; [reflexivity|]. split; [|discriminate]. discriminate.
Defined.

Section RateLimit.
Import SecurityMiddleware SecurityGates.

(** X21. The limiter keeps a sliding window per caller.  The caller is
    the address in the request body when that is truthy and else the
    [x-user-address] header; without either the answer is 400.  For a
    caller whose stored timestamps hold ten or more that are less than
    one minute old the answer is 429.  Otherwise [next()] is called and
    the list stored for the caller consists of the caller's earlier
    timestamps that are less than one minute old, followed by the current
    time; it has at most ten entries, and the lists of other callers are
    untouched.  A request that carries no limiter map of its own is never
    answered 429. *)
Theorem rate_limit_window (now : Z) (req : RateRequest) :
  let userAddress :=
    match rr_body_userAddress req with
    | Some a => if String.eqb a "" then rr_header_userAddress req else Some a
    | None => rr_header_userAddress req
    end in
  let limits := JS.or_default (securityRateLimit req) ∅ in
  ((userAddress = None ∨ userAddress = Some "") →
     rateLimitSecurity now req
       = Respond 400 "User address required for rate limiting") ∧
  (∀ user, userAddress = Some user → user ≠ "" →
     let earlier := JS.or_default (limits !! user) [] in
     let window := filter (λ t, (now - t < 60000)%Z) earlier in
     ((10 ≤ length window)%nat →
        rateLimitSecurity now req
          = Respond 429 "Rate limit exceeded for security operations") ∧
     ((length window < 10)%nat →
        ∃ limits',
          rateLimitSecurity now req = Next limits' ∧
          limits' !! user = Some (window ++ [now])%list ∧
          (length (window ++ [now])%list ≤ 10)%nat ∧
          (∀ other, other ≠ user → limits' !! other = limits !! other))) ∧
  (securityRateLimit req = None →
     ∀ msg, rateLimitSecurity now req ≠ Respond 429 msg).
Proof.
  cbv zeta.
  set (userAddress :=
         match rr_body_userAddress req with
         | Some a => if String.eqb a "" then rr_header_userAddress req
                     else Some a
         | None => rr_header_userAddress req
         end).
  assert (Hkey : (if JS.truthy (rr_body_userAddress req)
                  then rr_body_userAddress req
                  else rr_header_userAddress req) = userAddress).
  { unfold userAddress. destruct (rr_body_userAddress req) as [a|]; [|done].
    simpl. by destruct (String.eqb a ""). }
  unfold rateLimitSecurity. rewrite Hkey. clearbody userAddress.
  split; [|split].
  - by intros [-> | ->].
  - intros user -> Hne.
    unfold JS.truthy. rewrite (proj2 (String.eqb_neq _ _) Hne).
    simpl negb. cbv iota.
    change (JS.or_default (Some user) "") with user.
    unfold maxRequests, windowMs. change (60 * 1000) with 60000.
    split.
    + intros Hfull. by rewrite (proj2 (Nat.leb_le _ _) Hfull).
    + intros Hroom. rewrite (proj2 (Nat.leb_gt _ _) Hroom).
      eexists. split; [reflexivity|]. split; [|split].
      * by rewrite lookup_insert_eq.
      * rewrite length_app. simpl. lia.
      * intros other Ho. by rewrite lookup_insert_ne.
  - intros Hnone msg. rewrite Hnone. cbn [JS.or_default].
    destruct (negb (JS.truthy userAddress)); [discriminate|].
    rewrite lookup_empty. cbn [JS.or_default]. rewrite filter_nil.
    simpl. discriminate.
Qed.

End RateLimit.

(* ===================================================================== *)
(** * Further properties: the monitoring sweep *)
(* ===================================================================== *)

Section MonitoringSweep.
Context `{Monitor.Locale} `{Monitor.Messages} `{Emitters.Connections}.
Import AIAnalytics AICoPilot Monitor.

Lemma push_new_elem (l : list Z) (x y : Z) :
  y ∈ push_new l x ↔ y ∈ l ∨ y = x.
Proof.
  unfold push_new. destruct (existsb (Z.eqb x) l) eqn:He.
  - apply existsb_exists in He as (z & Hz & ->%Z.eqb_eq).
    apply list_elem_of_In in Hz. split; [by left|]. by intros [?| ->].
  - rewrite elem_of_app, list_elem_of_singleton. done.
Qed.

Lemma push_new_NoDup (l : list Z) (x : Z) : NoDup l → NoDup (push_new l x).
Proof.
  intros Hnd. unfold push_new. destruct (existsb (Z.eqb x) l) eqn:He; [done|].
  apply NoDup_app. repeat split; [done| |apply NoDup_singleton].
  intros y Hy ->%list_elem_of_singleton.
  apply not_true_iff_false in He. apply He, existsb_exists.
  exists x. split; [by apply list_elem_of_In | apply Z.eqb_refl].
Qed.

Lemma collected_elem {A} (f : A → Z) (rs : list A) (acc : list Z) (y : Z) :
  y ∈ foldl (λ l r, push_new l (f r)) acc rs ↔
  y ∈ acc ∨ ∃ r, r ∈ rs ∧ f r = y.
Proof.
  revert acc. induction rs as [|r rs IH]; intros acc; simpl.
  - split; [by left|]. intros [?|(r & Hr & _)]; [done|].
    by apply elem_of_nil in Hr.
  - rewrite IH, push_new_elem. split.
    + intros [[?| ->]|(r' & Hr' & <-)]; [by left| |].
      * right. exists r. split; [by left | done].
      * right. exists r'. split; [by right | done].
    + intros [?|(r' & Hr' & <-)]; [by left; left|].
      apply elem_of_cons in Hr' as [->|Hr']; [by left; right|].
      right. eauto.
Qed.

Lemma collected_NoDup {A} (f : A → Z) (rs : list A) (acc : list Z) :
  NoDup acc → NoDup (foldl (λ l r, push_new l (f r)) acc rs).
Proof.
  revert acc. induction rs as [|r rs IH]; intros acc Hnd; simpl; [done|].
  by apply IH, push_new_NoDup.
Qed.

(** X22. The access pattern counts every request and lists every hour
    of day and every day of week in which a request was created exactly
    once: the two lists have no duplicates and contain the hours (days)
    of the requests and nothing else. *)
Theorem access_pattern_lists_each_hour_once
    (requests : list ConsentRequest.doc) (totalDataVolume totalDuration : Q) :
  let pattern :=
    calculateAccessPattern requests totalDataVolume totalDuration in
  frequency pattern = Z.of_nat (length requests) ∧
  NoDup (timeOfDay pattern) ∧ NoDup (dayOfWeek pattern) ∧
  (∀ h, h ∈ timeOfDay pattern ↔
        ∃ r, r ∈ requests ∧ getHours (ConsentRequest.createdAt r) = h) ∧
  (∀ d, d ∈ dayOfWeek pattern ↔
        ∃ r, r ∈ requests ∧ getDay (ConsentRequest.createdAt r) = d).
Proof.
  cbv zeta. unfold calculateAccessPattern. simpl.
  repeat split.
  - apply collected_NoDup. constructor.
  - apply collected_NoDup. constructor.
  - intros Hin. apply collected_elem in Hin as [Hin|Hin]; [|done].
    by apply elem_of_nil in Hin.
  - intros Hr. apply collected_elem. by right.
  - intros Hin. apply collected_elem in Hin as [Hin|Hin]; [|done].
    by apply elem_of_nil in Hin.
  - intros Hr. apply collected_elem. by right.
Qed.

(** The alert loop: every alert is saved when the user has no socket,
    and only the first one, before the throw, when the user has one. *)
Lemma alert_loop_spec (u : doc) (anomalies : list Alert) :
  let connected :=
    JS.truthy (Emitters.connectedUsers !! JS.toLowerCase (userId u)) in
  alerts (stored (alert_loop u anomalies))
    = (alerts u ++ (if connected then take 1 anomalies else anomalies))%list ∧
  anomalyScore (stored (alert_loop u anomalies)) = anomalyScore u ∧
  riskLevel (stored (alert_loop u anomalies)) = riskLevel u ∧
  returned (alert_loop u anomalies)
    = (if connected then bool_decide (anomalies = []) else true).
Proof.
  cbv zeta. revert u. induction anomalies as [|a rest IH]; intros u.
  - simpl. destruct (JS.truthy _); simpl; by rewrite app_nil_r.
  - simpl. unfold Emitters.emitToUser. simpl.
    destruct (JS.truthy _) eqn:Hc; [done|].
    destruct (IH (addAlert a u)) as (Ha & Hs & Hr & Hret).
    simpl in Ha, Hs, Hr, Hret. rewrite Hc in Ha, Hret.
    split; [|by repeat split]. rewrite Ha. by rewrite <- app_assoc.
Qed.

Lemma detect_weight_le_60 pattern recentRequests :
  weight_sum (detect pattern recentRequests) ≤ 60.
Proof.
  unfold detect.
  destruct (_ <? _)%nat, (Qgtb _ _), (0 <? _)%nat, (violation_exceeds _ _);
    simpl; lia.
Qed.

Lemma weight_sum_app l1 l2 :
  weight_sum (l1 ++ l2) = weight_sum l1 + weight_sum l2.
Proof. induction l1 as [|a l1 IH]; simpl; lia. Qed.

Lemma sweep_score_parts
    (u : doc) (recentRequests : list ConsentRequest.doc) :
  let raised := detect (accessPattern u) recentRequests in
  let result := checkForAnomalies u recentRequests in
  let connected :=
    JS.truthy (Emitters.connectedUsers !! JS.toLowerCase (userId u)) in
  anomalyScore (stored result)
    = Z.min (weight_sum raised + pattern_bonus (accessPattern u)) 100 ∧
  riskLevel (stored result) = risk_of (anomalyScore (stored result)) ∧
  alerts (stored result)
    = (alerts u ++ (if connected then take 1 raised else raised))%list ∧
  returned result = (if connected then bool_decide (raised = []) else true).
Proof.
  cbv zeta. unfold checkForAnomalies.
  set (raised := detect (accessPattern u) recentRequests).
  destruct (alert_loop_spec
              (updateAnomalyScore (calculateAnomalyScore raised u) u) raised)
    as (-> & -> & -> & ->).
  simpl. by rewrite calculateAnomalyScore_eq.
Qed.

(** X23. The score the sweep stores never reaches the cap.  After
    [checkForAnomalies] the stored score is the uncapped sum of the
    weights of the alerts just raised and the pattern bonus, at most 95,
    and the risk level is the one that belongs to this score, whether the
    call returns or throws.  At most four alerts are raised.  When the
    monitored user has no socket, all of them are appended to the
    existing alerts and the call returns; when the user has a socket, the
    notification of the first alert throws, so only the first alert is
    appended and the call throws unless no alert was raised.  Existing
    alerts are never changed. *)
Theorem sweep_score_below_cap
    (userAnalytics : doc) (recentRequests : list ConsentRequest.doc) :
  let raised := detect (accessPattern userAnalytics) recentRequests in
  let result := checkForAnomalies userAnalytics recentRequests in
  let connected :=
    JS.truthy (Emitters.connectedUsers
                 !! JS.toLowerCase (userId userAnalytics)) in
  anomalyScore (stored result)
    = weight_sum raised + pattern_bonus (accessPattern userAnalytics) ∧
  0 ≤ anomalyScore (stored result) ≤ 95 ∧
  riskLevel (stored result) = risk_of (anomalyScore (stored result)) ∧
  (length raised ≤ 4)%nat ∧
  (connected = false →
     alerts (stored result) = (alerts userAnalytics ++ raised)%list ∧
     returned result = true) ∧
  (connected = true →
     alerts (stored result) = (alerts userAnalytics ++ take 1 raised)%list ∧
     (returned result = true ↔ raised = [])).
Proof.
  cbv zeta.
  destruct (sweep_score_parts userAnalytics recentRequests)
    as (Hscore & Hrisk & Halerts & Hret).
  pose proof (detect_weight_le_60 (accessPattern userAnalytics) recentRequests)
    as Hw.
  pose proof (weight_sum_nonneg
                (detect (accessPattern userAnalytics) recentRequests)) as Hw0.
  assert (Hb : 0 ≤ pattern_bonus (accessPattern userAnalytics) ≤ 35).
  { unfold pattern_bonus.
    destruct (10 <? _), (Qgtb _ _); lia. }
  rewrite Z.min_l in Hscore by lia.
  split; [done|]. split; [lia|]. split; [done|]. split; [|split].
  - unfold detect.
    destruct (_ <? _)%nat, (Qgtb _ _), (0 <? _)%nat, (violation_exceeds _ _);
      simpl; lia.
  - intros Hc. rewrite Hc in Halerts, Hret. done.
  - intros Hc. rewrite Hc in Halerts, Hret.
    split; [done|]. rewrite Hret. apply bool_decide_eq_true.
Qed.

(** X24. Many requests and an access at night raise two alerts, of which
    a connected user keeps one.  When [analyzeUserPatterns] runs on more
    than five requests of which one was created before 6 or after 22
    o'clock, the stored score is at least 20 and at least two warnings
    are among the alerts raised, the first alert being the warning for
    the access frequency.  For a user
    without a socket all raised alerts are appended to the profile's
    alerts and the call returns; for a user with a socket only the first
    warning is appended and the call throws. *)
Theorem frequent_and_nightly_access_raises_two_alerts
    (userAnalytics : doc) (recentRequests : list ConsentRequest.doc)
    (totalDataVolume totalDuration : Q) (r : ConsentRequest.doc)
    (Hmany : (5 < length recentRequests)%nat)
    (Hr : r ∈ recentRequests)
    (Hnight : getHours (ConsentRequest.createdAt r) < 6 ∨
              22 < getHours (ConsentRequest.createdAt r)) :
  let result := analyzeUserPatterns userAnalytics recentRequests
                                    totalDataVolume totalDuration in
  let connected :=
    JS.truthy (Emitters.connectedUsers
                 !! JS.toLowerCase (userId userAnalytics)) in
  20 ≤ anomalyScore (stored result) ∧
  ∃ first rest,
    detect (calculateAccessPattern recentRequests totalDataVolume
                                   totalDuration) recentRequests
      = first :: rest ∧
    first = {| alert_type := "unusual_access"; severity := warning;
               message := frequency_message (length recentRequests) |} ∧
    (1 ≤ length (filter (λ a, severity a = warning) rest))%nat ∧
    (connected = false →
       alerts (stored result)
         = (alerts userAnalytics ++ first :: rest)%list ∧
       returned result = true) ∧
    (connected = true →
       alerts (stored result) = (alerts userAnalytics ++ [first])%list ∧
       returned result = false).
Proof.
  cbv zeta. unfold analyzeUserPatterns.
  set (pattern := calculateAccessPattern recentRequests totalDataVolume
                                         totalDuration).
  set (u := set_accessPattern pattern userAnalytics).
  destruct (sweep_score_parts u recentRequests)
    as (Hscore & _ & Halerts & Hret).
  change (accessPattern u) with pattern in *.
  change (alerts u) with (alerts userAnalytics) in *.
  change (userId u) with (userId userAnalytics) in *.
  assert (Hhours : filter (λ h, unusual_hour h = true) (timeOfDay pattern)
                   ≠ []).
  { intros Hnil.
    assert (Hin : getHours (ConsentRequest.createdAt r)
                  ∈ filter (λ h, unusual_hour h = true) (timeOfDay pattern)).
    { apply list_elem_of_filter. split.
      { unfold unusual_hour. apply orb_true_iff.
        destruct Hnight as [Hearly|Hlate]; [left|right];
          by apply Z.ltb_lt. }
      unfold pattern, calculateAccessPattern. simpl.
      apply collected_elem. right. eauto. }
    rewrite Hnil in Hin. by apply elem_of_nil in Hin. }
  assert (Hd : ∃ m2 rest1 rest2,
            detect pattern recentRequests
            = ({| alert_type := "unusual_access"; severity := warning;
                  message := frequency_message (length recentRequests) |}
               :: rest1 ++
               [ {| alert_type := "unusual_access"; severity := warning;
                    message := m2 |} ] ++ rest2)%list).
  { unfold detect. unfold unusualAccessFrequency.
    rewrite (proj2 (Nat.ltb_lt _ _) Hmany).
    destruct (filter _ (timeOfDay pattern)) as [|h hs] eqn:Hf; [done|].
    change (0 <? length (h :: hs))%nat with true. cbv iota.
    by eexists _, _, _. }
  destruct Hd as (m2 & rest1 & rest2 & Hd).
  rewrite Hd in Hscore, Halerts, Hret.
  split.
  - rewrite Hscore. simpl. rewrite !weight_sum_app. simpl.
    pose proof (weight_sum_nonneg rest1). pose proof (weight_sum_nonneg rest2).
    pose proof (pattern_bonus_nonneg pattern). lia.
  - exists {| alert_type := "unusual_access"; severity := warning;
              message := frequency_message (length recentRequests) |},
           (rest1 ++
            [ {| alert_type := "unusual_access"; severity := warning;
                 message := m2 |} ] ++ rest2)%list.
    split; [exact Hd|]. split; [reflexivity|]. split; [|split].
    + rewrite !filter_app, !length_app.
      rewrite filter_cons_True by done. simpl. lia.
    + intros Hc. rewrite Hc in Halerts, Hret. done.
    + intros Hc. rewrite Hc in Halerts, Hret. done.
Qed.

End MonitoringSweep.

Lemma nightly_access_witness :
  20 ≤ AIAnalytics.anomalyScore
         (Monitor.stored
            (@Monitor.analyzeUserPatterns MoreFixtures.utc
               MoreFixtures.plain_messages MoreFixtures.alice_online
               Fixtures.profile MoreFixtures.busy_day 0 0)) ∧
  Monitor.returned
    (@Monitor.analyzeUserPatterns MoreFixtures.utc
       MoreFixtures.plain_messages MoreFixtures.alice_online
       Fixtures.profile MoreFixtures.busy_day 0 0) = false.
Proof.
  destruct (@frequent_and_nightly_access_raises_two_alerts
              MoreFixtures.utc MoreFixtures.plain_messages
              MoreFixtures.alice_online Fixtures.profile
              MoreFixtures.busy_day 0 0
              (MoreFixtures.request_made_at 10800000))
    as (Hscore & first & rest & _ & _ & _ & _ & Hthrows).
  - simpl. lia.
  - apply list_elem_of_here.
  - left. by vm_compute.
  - split; [exact Hscore|]. apply Hthrows. reflexivity.
Defined.
